(** * Burgerbot: the appointment-slot notifier of [burgerbot.py]

    A shallow embedding of the [Bot] class: the subscriber registry and its
    [chats.json] store, the notification cache, the date shown in a
    notification and the polling loop of [__parse].

    Python integers are [Z], Python strings are [string] (read as ASCII
    text), lists are [list].  Everything the program obtains from outside
    (the wall clock, the HTTP response, the HTML parser, the outcome of a
    Telegram delivery, the time zone of the host) is read from an [Env].

    The methods run one at a time: the two threads that [start] launches
    are not modelled, only sequences of calls.  Opening [chats.json] for
    reading fails when the file is missing; writing it always succeeds. *)

From Stdlib Require Import ZArith List Bool String Ascii Lia Permutation.
From Stdlib Require DecimalString DecimalFacts DecimalPos DecimalN DecimalZ.
Import ListNotations.

Local Open Scope string_scope.
Local Open Scope Z_scope.

(** ** Strings as Python uses them *)

Module PyStr.

(** [str(n)] for an [int]. *)
Definition str_of_int (n : Z) : string := DecimalString.NilZero.string_of_int (Z.to_int n).

Definition is_digit (c : ascii) : bool :=
  let n := nat_of_ascii c in (48 <=? n)%nat && (n <=? 57)%nat.

Definition digit_val (c : ascii) : Z := Z.of_nat (nat_of_ascii c) - 48.

(** The ASCII characters that [int()] strips from both ends of a [str]:
    TAB, LF, VT, FF, CR and the blank.  (The separators FS..US are not
    stripped: [int('5\x1c')] raises.) *)
Definition is_space (c : ascii) : bool :=
  let n := nat_of_ascii c in
  ((9 <=? n)%nat && (n <=? 13)%nat) || (n =? 32)%nat.

(** The strings on which [int_of_str] below is [int()]: those of ASCII
    characters only.  Outside them Python also reads the decimal digits
    and strips the blanks of other scripts, which a [string] of bytes
    does not tell apart. *)
Definition is_ascii (s : string) : bool :=
  forallb (fun c => (nat_of_ascii c <? 128)%nat) (list_ascii_of_string s).

Fixpoint lstrip (l : list ascii) : list ascii :=
  match l with
  | c :: r => if is_space c then lstrip r else l
  | [] => []
  end.

Definition strip (l : list ascii) : list ascii :=
  rev (lstrip (rev (lstrip l))).

(** The digits of an [int()] literal: decimal digits, single underscores
    allowed between two digits. *)
Fixpoint int_digits (acc : Z) (after_digit : bool) (l : list ascii) : option Z :=
  match l with
  | [] => if after_digit then Some acc else None
  | c :: r =>
      if is_digit c then int_digits (10 * acc + digit_val c) true r
      else if Ascii.eqb c "_" && after_digit then
        match r with
        | [] => None
        | _ => int_digits acc false r
        end
      else None
  end.

(** [int(s)] in base 10 on an ASCII string: blanks stripped at both
    ends, an optional sign, then digits with single underscores between
    them; [None] stands for the [ValueError]. *)
Definition int_of_str (s : string) : option Z :=
  match strip (list_ascii_of_string s) with
  | c :: r =>
      if Ascii.eqb c "-" then option_map Z.opp (int_digits 0 false r)
      else if Ascii.eqb c "+" then int_digits 0 false r
      else int_digits 0 false (c :: r)
  | [] => None
  end.

(** [s.split(sep)] for a one-character separator: never the empty list. *)
Fixpoint split (sep : ascii) (s : string) : list string :=
  match s with
  | EmptyString => [EmptyString]
  | String c r =>
      if Ascii.eqb c sep then EmptyString :: split sep r
      else match split sep r with
           | seg :: segs => String c seg :: segs
           | [] => [String c EmptyString]
           end
  end.

(** [l[i]] with Python's negative indices; [None] is the [IndexError]. *)
Definition index {A} (l : list A) (i : Z) : option A :=
  let n := Z.of_nat (List.length l) in
  let j := if i <? 0 then i + n else i in
  if (0 <=? j) && (j <? n) then nth_error l (Z.to_nat j) else None.

(** [sub in s]. *)
Fixpoint contains (sub s : string) : bool :=
  String.prefix sub s ||
  match s with
  | EmptyString => false
  | String _ r => contains sub r
  end.

End PyStr.

(** ** The [json] library on lists of integers

    [chats.json] holds what [json.dump] writes for a list of [int]: the
    decimal numerals separated by a comma and a blank, in brackets.  [load]
    reads a JSON array of integers the way [json.load] scans it; any other
    document (a decoding error, or a value that is not such an array) is
    [None]. *)

Module Json.

Definition dump (l : list Z) : string :=
  "[" ++ String.concat ", " (map PyStr.str_of_int l) ++ "]".

Definition is_ws (c : ascii) : bool :=
  Ascii.eqb c " " || Ascii.eqb c "009" || Ascii.eqb c "010" || Ascii.eqb c "013".

Fixpoint skip_ws (s : string) : string :=
  match s with
  | String c r => if is_ws c then skip_ws r else s
  | EmptyString => EmptyString
  end.

Fixpoint span_digits (s : string) : string * string :=
  match s with
  | String c r =>
      if PyStr.is_digit c
      then let (ds, rest) := span_digits r in (String c ds, rest)
      else (EmptyString, s)
  | EmptyString => (EmptyString, EmptyString)
  end.

(** The unsigned integer part of a number: [0], or a non-zero digit and the
    digits after it. *)
Definition scan_nat (s : string) : option (Z * string) :=
  match s with
  | String c r =>
      if Ascii.eqb c "0" then Some (0, r)
      else if PyStr.is_digit c then
        let (ds, rest) := span_digits s in
        match DecimalString.NilEmpty.uint_of_string ds with
        | Some u => Some (Z.of_uint u, rest)
        | None => None
        end
      else None
  | EmptyString => None
  end.

Definition scan_int (s : string) : option (Z * string) :=
  match s with
  | String c r =>
      if Ascii.eqb c "-"
      then match scan_nat r with
           | Some (n, rest) => Some (- n, rest)
           | None => None
           end
      else scan_nat s
  | EmptyString => None
  end.

(** The elements of a non-empty array, up to and including its [']']. *)
Fixpoint elements (fuel : nat) (s : string) : option (list Z * string) :=
  match fuel with
  | O => None
  | S fuel' =>
      match scan_int s with
      | None => None
      | Some (z, r) =>
          match skip_ws r with
          | String c r' =>
              if Ascii.eqb c "," then
                match elements fuel' (skip_ws r') with
                | Some (l, t) => Some (z :: l, t)
                | None => None
                end
              else if Ascii.eqb c "]" then Some ([z], r')
              else None
          | EmptyString => None
          end
      end
  end.

Definition at_end (s : string) : bool :=
  match skip_ws s with EmptyString => true | _ => false end.

Definition load (s : string) : option (list Z) :=
  match skip_ws s with
  | String c r =>
      if Ascii.eqb c "[" then
        match skip_ws r with
        | String c' t =>
            if Ascii.eqb c' "]" then (if at_end t then Some [] else None)
            else match elements (S (String.length r)) (String c' t) with
                 | Some (l, t') => if at_end t' then Some l else None
                 | None => None
                 end
        | EmptyString => None
        end
      else None
  | EmptyString => None
  end.

(** The decimal numeral of [d] as text. *)
Definition digits (d : Decimal.uint) : string :=
  DecimalString.NilEmpty.string_of_uint d.

(** A string that does not go on with a digit. *)
Definition ends_number (s : string) : Prop :=
  match s with
  | String c _ => PyStr.is_digit c = false
  | EmptyString => True
  end.

(** The text of a non-empty array after its bracket. *)
Definition body (z : Z) (l : list Z) : string :=
  String.concat ", " (map PyStr.str_of_int (z :: l)) ++ "]".

End Json.

(** ** [datetime.fromtimestamp] and [strftime("%d %B")]

    A naive [datetime] in the proleptic Gregorian calendar.
    [fromtimestamp] converts in the time zone of the host: [offset] gives
    the host's distance from UTC, in seconds, at an instant. *)

Module Calendar.

Record datetime := Datetime {
  year : Z; month : Z; day : Z; hour : Z; minute : Z; second : Z
}.

(** Year, month and day of the day [z] days after 1970-01-01. *)
Definition civil_from_days (z : Z) : Z * Z * Z :=
  let z := z + 719468 in
  let era := z / 146097 in
  let doe := z - era * 146097 in
  let yoe := (doe - doe / 1460 + doe / 36524 - doe / 146096) / 365 in
  let doy := doe - (365 * yoe + yoe / 4 - yoe / 100) in
  let mp := (5 * doy + 2) / 153 in
  let d := doy - (153 * mp + 2) / 5 + 1 in
  let m := if mp <? 10 then mp + 3 else mp - 9 in
  let y := yoe + era * 400 in
  (if m <=? 2 then y + 1 else y, m, d).

(** The fields of the instant [secs] seconds after the epoch, read in UTC. *)
Definition of_epoch (secs : Z) : datetime :=
  let '(y, m, d) := civil_from_days (secs / 86400) in
  let r := secs mod 86400 in
  Datetime y m d (r / 3600) (r mod 3600 / 60) (r mod 60).

(** The fields of an instant, when a [datetime] can hold them: the year
    is one of 1..9999. *)
Definition utcfromtimestamp (ts : Z) : option datetime :=
  let dt := of_epoch ts in
  if (1 <=? year dt) && (year dt <=? 9999) then Some dt else None.

(** The local time of the host at the instant [t]. *)
Definition localtime (offset : Z -> Z) (t : Z) : option datetime :=
  utcfromtimestamp (t + offset t).

Definition max_fold_seconds : Z := 24 * 3600.

(** [datetime.fromtimestamp(ts)], no [tz] given: the local time of the
    host.  To set [fold] the library also converts the instant
    [max_fold_seconds] earlier, and, when the offset of the host went down
    in between, the instant that much before [ts]; the call raises when
    any of the converted times has its year outside 1..9999, so also in
    the first 24 hours of year 1.  [None] stands for that error. *)
Definition fromtimestamp (offset : Z -> Z) (ts : Z) : option datetime :=
  match localtime offset ts, localtime offset (ts - max_fold_seconds) with
  | Some result, Some _ =>
      let transition := offset ts - offset (ts - max_fold_seconds) in
      if transition <? 0 then
        match localtime offset (ts + transition) with
        | Some _ => Some result
        | None => None
        end
      else Some result
  | _, _ => None
  end.

Definition month_name (m : Z) : string :=
  nth (Z.to_nat (m - 1))
      ["January"; "February"; "March"; "April"; "May"; "June"; "July";
       "August"; "September"; "October"; "November"; "December"] "".

Definition two_digits (n : Z) : string :=
  if n <? 10 then "0" ++ PyStr.str_of_int n else PyStr.str_of_int n.

(** [dt.strftime("%d %B")] in the C locale. *)
Definition strftime_d_B (dt : datetime) : string :=
  two_digits (day dt) ++ " " ++ month_name (month dt).

End Calendar.

(** ** Exceptions, the outside world and the state of the program *)

(** Exceptions the program can meet.  [LibraryError text] is raised by a
    library call ([requests], [bs4], [telegram]); [text] is its [__str__]. *)
Inductive exn :=
| ValueError (text : string)
| TypeError
| KeyError (key : string)
| IndexError
| FileNotFoundError
| JSONDecodeError
| LibraryError (text : string).

Definition exn_str (e : exn) : string :=
  match e with
  | ValueError text => text
  | TypeError => "'NoneType' object is not subscriptable"
  | KeyError key => "'" ++ key ++ "'"
  | IndexError => "list index out of range"
  | FileNotFoundError => "[Errno 2] No such file or directory: 'chats.json'"
  | JSONDecodeError => "Expecting value"
  | LibraryError text => text
  end.

Record response := Response { status_code : Z; content : string }.

(** A [td] cell found by [find_all]: [slot.a] is its first anchor, if any,
    with its [href] attribute, if any. *)
Record td := Td { a : option (option string) }.

(** What the program reads from outside.  Every call that leaves the
    process is one step of the run; the answers are indexed by the step
    at which the call is made. *)
Record Env := {
  (** [int(time.time())] *)
  clock : nat -> Z;
  (** [requests.get(url)], through the proxy or not *)
  requests_get : nat -> bool -> exn + response;
  (** [BeautifulSoup(content, 'html.parser').find_all('td', class_='buchbar')] *)
  find_buchbar : string -> exn + list td;
  (** [updater.bot.send_message(chat_id, text)]: [None] when delivered,
      [Some text'] when it raises an exception whose [__str__] is [text'] *)
  bot_send : nat -> Z -> string -> option string;
  (** distance of the host's local time from UTC, in seconds *)
  utcoffset : Z -> Z
}.

Inductive level := DEBUG | INFO.

Inductive event :=
| Log (lvl : level) (text : string)
| Warn (e : exn)
| HttpGet (proxy : bool)
| Sleep (secs : Z)
| Soup (content : string)
| Send (chat_id : Z) (text : string)
| WriteChats (content : string).

Record Message := Msg { message : string; ts : Z }.

Record Bot := {
  chats : list Z;
  cache : list Message;
  proxy_on : bool
}.

Record World := {
  self : Bot;
  chats_json : option string;   (* the file chats.json, if it exists *)
  step : nat;                   (* calls made to the outside so far *)
  trace : list event            (* what the program did, oldest first *)
}.

Definition url : string :=
  "https://service.berlin.de/terminvereinbarung/termin/tag.php?termin=1&dienstleister=324180&anliegen[]=318998&herkunft=1".

(** ** A state and exception monad *)

Definition M (A : Type) : Type := World -> (exn + A) * World.

Definition ret {A} (x : A) : M A := fun w => (inr x, w).

Definition raise {A} (e : exn) : M A := fun w => (inl e, w).

Definition bind {A B} (m : M A) (k : A -> M B) : M B :=
  fun w => match m w with
           | (inr x, w') => k x w'
           | (inl e, w') => (inl e, w')
           end.

(** [try: m  except Exception as e: h e] *)
Definition try_catch {A} (m : M A) (h : exn -> M A) : M A :=
  fun w => match m w with
           | (inr x, w') => (inr x, w')
           | (inl e, w') => h e w'
           end.

Notation "x <- m ;; k" := (bind m (fun x => k))
  (at level 61, m at next level, right associativity).
Notation "m ;; k" := (bind m (fun _ => k))
  (at level 61, right associativity).

(** [for x in l: body x] *)
Fixpoint for_each {A} (l : list A) (body : A -> M unit) : M unit :=
  match l with
  | [] => ret tt
  | x :: r => body x ;; for_each r body
  end.

Definition gets {A} (f : Bot -> A) : M A := fun w => (inr (f (self w)), w).

Definition modify (f : Bot -> Bot) : M unit :=
  fun w => (inr tt, {| self := f (self w); chats_json := chats_json w;
                       step := step w; trace := trace w |}).

Definition emit (e : event) : M unit :=
  fun w => (inr tt, {| self := self w; chats_json := chats_json w;
                       step := step w; trace := trace w ++ [e] |}).

(** One call to the outside has been answered. *)
Definition tick : M unit :=
  fun w => (inr tt, {| self := self w; chats_json := chats_json w;
                       step := S (step w); trace := trace w |}).

Definition of_result {A} (r : exn + A) : M A :=
  match r with inr x => ret x | inl e => raise e end.

Definition set_chats (l : list Z) (b : Bot) : Bot :=
  {| chats := l; cache := cache b; proxy_on := proxy_on b |}.

Definition set_cache (l : list Message) (b : Bot) : Bot :=
  {| chats := chats b; cache := l; proxy_on := proxy_on b |}.

Definition set_proxy_on (p : bool) (b : Bot) : Bot :=
  {| chats := chats b; cache := cache b; proxy_on := p |}.

Definition logging_info (text : string) : M unit := emit (Log INFO text).
Definition logging_debug (text : string) : M unit := emit (Log DEBUG text).
Definition logging_warn (e : exn) : M unit := emit (Warn e).

(** [open('chats.json', 'r')] and [f.read()] *)
Definition read_chats_json : M string :=
  fun w => match chats_json w with
           | Some s => (inr s, w)
           | None => (inl FileNotFoundError, w)
           end.

(** [open('chats.json', 'w')] and [f.write(s)] *)
Definition write_chats_json (s : string) : M unit :=
  fun w => (inr tt, {| self := self w; chats_json := Some s;
                       step := step w; trace := trace w ++ [WriteChats s] |}).

(** ** The methods of [Bot] *)

Section BotMethods.

Variable env : Env.

(** [int(time.time())] *)
Definition time_time : M Z :=
  fun w => (tick ;; ret (clock env (step w))) w.

(** [time.sleep(secs)] *)
Definition time_sleep (secs : Z) : M unit := emit (Sleep secs) ;; tick.

(** [__get_chats] *)
Definition get_chats : M unit :=
  s <- read_chats_json ;;
  match Json.load s with
  | Some l => modify (set_chats l)
  | None => raise JSONDecodeError
  end.

(** [__persist_chats] *)
Definition persist_chats : M unit :=
  l <- gets chats ;;
  write_chats_json (Json.dump l).

(** [chat_id in self.chats] *)
Definition chat_in (chat_id : Z) (l : list Z) : bool :=
  existsb (Z.eqb chat_id) l.

(** [__add_chat] *)
Definition add_chat (chat_id : Z) : M unit :=
  l <- gets chats ;;
  if negb (chat_in chat_id l) then
    logging_info "adding new chat" ;;
    modify (set_chats (l ++ [chat_id])) ;;
    persist_chats
  else ret tt.

(** [__remove_chat] *)
Definition remove_chat (chat_id : Z) : M unit :=
  logging_info ("removing the chat " ++ PyStr.str_of_int chat_id) ;;
  l <- gets chats ;;
  modify (set_chats (filter (fun chat => negb (chat =? chat_id)) l)) ;;
  persist_chats.

(** [__get_url] *)
Definition get_url : M response :=
  fun w =>
    let p := proxy_on (self w) in
    (emit (HttpGet p) ;; tick ;; of_result (requests_get env (step w) p)) w.

(** [__toggle_proxy] *)
Definition toggle_proxy : M unit :=
  modify (fun b => set_proxy_on (negb (proxy_on b)) b).

(** [__msg_in_cache] *)
Definition msg_in_cache (msg : string) (b : Bot) : bool :=
  existsb (fun m => String.eqb (message m) msg) (cache b).

(** [__add_msg_to_cache] *)
Definition add_msg_to_cache (msg : string) : M unit :=
  now <- time_time ;;
  modify (fun b => set_cache (cache b ++ [Msg msg now]) b).

(** [__clear_cache] *)
Definition clear_cache : M unit :=
  cur_ts <- time_time ;;
  l <- gets cache ;;
  if (0 <? Z.of_nat (List.length l)) then
    logging_info "clearing some messages from cache" ;;
    modify (set_cache (filter (fun m => cur_ts - ts m <? 300) l))
  else ret tt.

(** [__date_from_msg] *)
Definition date_from_msg (msg : string) : exn + string :=
  let msg_arr := PyStr.split "/" msg in
  match PyStr.index msg_arr (Z.of_nat (List.length msg_arr) - 2) with
  | None => inl IndexError
  | Some seg =>
      match PyStr.int_of_str seg with
      | None =>
          inl (ValueError ("invalid literal for int() with base 10: '" ++ seg ++ "'"))
      | Some n =>
          let ts := n + 7200 in
          match Calendar.fromtimestamp (utcoffset env) ts with
          | None => inl (ValueError "year is out of range")
          | Some dt => inr (Calendar.strftime_d_B dt)
          end
      end
  end.

(** [self.updater.bot.send_message(chat_id=c, text=text, ...)] *)
Definition bot_send_message (c : Z) (text : string) : M unit :=
  fun w =>
    (emit (Send c text) ;; tick ;;
     match bot_send env (step w) c text with
     | None => ret tt
     | Some err => raise (LibraryError err)
     end) w.

Definition md_msg (date : string) : string :=
  "There are slots on " ++ date ++ " available for booking, click [here]("
    ++ url ++ ") to check it out".

(** The body of the loop over [self.chats] in [__send_message]. *)
Definition send_to (text : string) (c : Z) : M unit :=
  logging_debug ("sending msg to " ++ PyStr.str_of_int c) ;;
  try_catch (bot_send_message c text)
    (fun e =>
       if PyStr.contains "bot was blocked by the user" (exn_str e) then
         logging_info "removing since user blocked bot" ;;
         remove_chat c
       else logging_warn e).

(** [__send_message].  The loop runs over the list [self.chats] names when
    the loop starts: [__remove_chat] binds [self.chats] to a new list and
    leaves the one being iterated as it is. *)
Definition send_message (msg : string) : M unit :=
  cached <- gets (msg_in_cache msg) ;;
  if cached then
    logging_info "Notification is cached already. Do not repeat sending"
  else
    add_msg_to_cache msg ;;
    date <- of_result (date_from_msg msg) ;;
    cs <- gets chats ;;
    for_each cs (send_to (md_msg date)).

(** [slot.a['href']] *)
Definition slot_href (slot : td) : exn + string :=
  match a slot with
  | None => inl TypeError
  | Some None => inl (KeyError "href")
  | Some (Some href) => inr href
  end.

(** [BeautifulSoup(page.content, 'html.parser')] and
    [soup.find_all('td', class_='buchbar')] *)
Definition find_slots (page : response) : M (list td) :=
  emit (Soup (content page)) ;; of_result (find_buchbar env (content page)).

(** The body of the [for] loop over the slots in [__parse]. *)
Definition notify_slot (slot : td) : M unit :=
  logging_info "notifing users" ;;
  try_catch (href <- of_result (slot_href slot) ;; send_message href)
            (fun e => logging_warn e).

(** How the body of the [while] loop ends: it falls through to the
    [time.sleep(45)] after the [try], or it leaves through [continue]. *)
Inductive flow := FallThrough | Continue.

(** The [try] block of [__parse]. *)
Definition parse_try : M flow :=
  page <- get_url ;;
  if status_code page =? 429 then
    logging_info "exceeded rate limit. Sleeping for a while" ;;
    time_sleep 300 ;;
    toggle_proxy ;;
    ret Continue
  else
    slots <- find_slots page ;;
    for_each slots notify_slot ;;
    (if Z.of_nat (List.length slots) =? 0
     then logging_info "no luck yet" else ret tt) ;;
    clear_cache ;;
    ret FallThrough.

(** One iteration of the [while True] loop of [__parse]. *)
Definition parse_iteration : M unit :=
  f <- try_catch parse_try
         (fun e => logging_warn e ;; toggle_proxy ;; ret FallThrough) ;;
  match f with
  | Continue => ret tt
  | FallThrough => time_sleep 45
  end.

(** The first [n] iterations of [__parse]. *)
Fixpoint parse (n : nat) : M unit :=
  match n with
  | O => ret tt
  | S k => parse_iteration ;; parse k
  end.

End BotMethods.

(** What [Bot.__init__] leaves behind once [chats.json] has been read. *)
Definition new_world (file : option string) : World :=
  {| self := {| chats := []; cache := []; proxy_on := false |};
     chats_json := file; step := O; trace := [] |}.

Definition init : M unit :=
  get_chats ;;
  modify (set_cache []) ;;
  modify (set_proxy_on false).

(** ** Notions used in the statements *)

(** [m] never raises. *)
Definition total {A} (m : M A) : Prop :=
  forall w, exists x w', m w = (inr x, w').

(** A relation between the world before and the world after that every
    run of [m] establishes, whether [m] returns or raises. *)
Definition respects {A} (R : World -> World -> Prop) (m : M A) : Prop :=
  forall w, R w (snd (m w)).

(** The part of [__send_message] that follows the update of the cache. *)
Definition fan_out (env : Env) (msg : string) : M unit :=
  date <- of_result (date_from_msg env msg) ;;
  cs <- gets chats ;;
  for_each cs (send_to env (md_msg date)).

(** The deliveries attempted in a trace: chat and text, oldest first. *)
Fixpoint sent (tr : list event) : list (Z * string) :=
  match tr with
  | [] => []
  | Send c text :: r => (c, text) :: sent r
  | _ :: r => sent r
  end.

(** A delivery failed and its error says that the user blocked the bot. *)
Definition blocked (o : option string) : bool :=
  match o with
  | Some err => PyStr.contains "bot was blocked by the user" err
  | None => false
  end.

(** The outcomes of the deliveries of [text] to the chats [cs], one after
    the other, the first of them made at step [k]. *)
Fixpoint outcomes (env : Env) (text : string) (k : nat) (cs : list Z)
  : list (option string) :=
  match cs with
  | [] => []
  | c :: r => bot_send env k c text :: outcomes env text (S k) r
  end.

(** The chats of [cs] whose delivery did not fail as blocked. *)
Fixpoint survivors (cs : list Z) (os : list (option string)) : list Z :=
  match cs, os with
  | c :: r, o :: os' =>
      if blocked o then survivors r os' else c :: survivors r os'
  | _, _ => cs
  end.

(** The chats of [cs] whose delivery failed as blocked. *)
Fixpoint blocked_chats (cs : list Z) (os : list (option string)) : list Z :=
  match cs, os with
  | c :: r, o :: os' =>
      if blocked o then c :: blocked_chats r os' else blocked_chats r os'
  | _, _ => []
  end.

(** The chats left in the registry [reg] by a fan-out over [cs]. *)
Definition registry_after (reg cs : list Z) (os : list (option string)) : list Z :=
  filter (fun x => negb (chat_in x (blocked_chats cs os))) reg.

(** What can happen to a running bot: an iteration of the polling loop,
    one of the steps an iteration is made of, or a call of a method that
    changes the state. *)
Inductive call :=
| Iteration
| GetUrl
| FindSlots (page : response)
| NotifySlot (slot : td)
| SendMessage (msg : string)
| ClearCache
| TimeSleep (secs : Z)
| LoggingInfo (text : string)
| LoggingWarn (e : exn)
| AddChat (chat_id : Z)
| RemoveChat (chat_id : Z)
| ToggleProxy.

Definition exec (env : Env) (c : call) : M unit :=
  match c with
  | Iteration => parse_iteration env
  | GetUrl => get_url env ;; ret tt
  | FindSlots page => find_slots env page ;; ret tt
  | NotifySlot slot => notify_slot env slot
  | SendMessage msg => send_message env msg
  | ClearCache => clear_cache env
  | TimeSleep secs => time_sleep secs
  | LoggingInfo text => logging_info text
  | LoggingWarn e => logging_warn e
  | AddChat chat_id => add_chat chat_id
  | RemoveChat chat_id => remove_chat chat_id
  | ToggleProxy => toggle_proxy
  end.

(** The world after a sequence of calls; an exception of a call is
    dropped, as the callers of these methods do. *)
Fixpoint run (env : Env) (calls : list call) (w : World) : World :=
  match calls with
  | [] => w
  | c :: r => run env r (snd (exec env c w))
  end.

(** No identifier is cached twice. *)
Definition cache_unique (w : World) : Prop :=
  NoDup (map message (cache (self w))).

(** The wall clock never goes back. *)
Definition monotone (env : Env) : Prop :=
  forall i j, (i <= j)%nat -> clock env i <= clock env j.

(** The entry that [__add_msg_to_cache] made for [msg] at time [t0] is in
    the cache for as long as fewer than 300 seconds have passed. *)
Definition held (env : Env) (msg : string) (t0 : Z) (w : World) : Prop :=
  clock env (step w) - t0 < 300 -> In (Msg msg t0) (cache (self w)).

(** [P] is not lost on the way from one world to a later one. *)
Definition keeps (P : World -> Prop) (w w' : World) : Prop := P w -> P w'.

(** The later world has the trace of the earlier one, and more. *)
Definition extends (w w' : World) : Prop :=
  exists evs, trace w' = (trace w ++ evs)%list.

(** What the [try] block of [__parse] does with the response. *)
Definition parse_page (env : Env) (page : response) : M flow :=
  if status_code page =? 429 then
    logging_info "exceeded rate limit. Sleeping for a while" ;;
    time_sleep 300 ;;
    toggle_proxy ;;
    ret Continue
  else
    slots <- find_slots env page ;;
    for_each slots (notify_slot env) ;;
    (if Z.of_nat (List.length slots) =? 0
     then logging_info "no luck yet" else ret tt) ;;
    clear_cache env ;;
    ret FallThrough.

(** The [except] block of [__parse]. *)
Definition parse_except (e : exn) : M flow :=
  logging_warn e ;; toggle_proxy ;; ret FallThrough.

(** The end of an iteration of [__parse]. *)
Definition parse_end (f : flow) : M unit :=
  match f with
  | Continue => ret tt
  | FallThrough => time_sleep 45
  end.

(** ** The command handlers

    [__start] and [__stop] are called by the dispatcher with an update; the
    update is taken to carry a message, and [chat_id] is
    [update.message.chat_id]. *)

(** [update.message.reply_text(text)]: the library sends [text] to the
    chat of the message with [bot.send_message]. *)
Definition reply_text (env : Env) (chat_id : Z) (text : string) : M unit :=
  bot_send_message env chat_id text.

(** [__start] *)
Definition start (env : Env) (chat_id : Z) : M unit :=
  add_chat chat_id ;;
  logging_info ("got new user with id " ++ PyStr.str_of_int chat_id) ;;
  reply_text env chat_id
    "Welcome to EinburgerungBot. When there will be slot - you will receive notification. To stop it - just type /stop".

(** [__stop] *)
Definition stop (env : Env) (chat_id : Z) : M unit :=
  remove_chat chat_id ;;
  reply_text env chat_id "Thanks for using me! Bye!".

(** What the two tasks of the bot do, one thing at a time: a step of the
    polling loop, or a command of a user. *)
Inductive action :=
| Loop (c : call)
| Start (chat_id : Z)
| Stop (chat_id : Z).

Definition act (env : Env) (a : action) : M unit :=
  match a with
  | Loop c => exec env c
  | Start chat_id => start env chat_id
  | Stop chat_id => stop env chat_id
  end.

(** The world after a sequence of actions; an exception of an action is
    left to its caller, the loop or the dispatcher. *)
Fixpoint serve (env : Env) (l : list action) (w : World) : World :=
  match l with
  | [] => w
  | x :: r => serve env r (snd (act env x w))
  end.

(** [chats.json] exists and decodes to the subscribers of the bot. *)
Definition stored (w : World) : Prop :=
  match chats_json w with
  | Some s => Json.load s = Some (chats (self w))
  | None => False
  end.

(** The texts delivered, or tried, to the chat [c] in a trace. *)
Definition sent_to (c : Z) (tr : list event) : list string :=
  map snd (filter (fun p => fst p =? c) (sent tr)).

(** An event other than a delivery. *)
Definition quiet (e : event) : bool :=
  match e with
  | Send _ _ => false
  | _ => true
  end.

(** From the earlier world to the later one no subscriber was added, and
    every delivery made in between went to a subscriber of the earlier
    world. *)
Definition only_subscribers (w w' : World) : Prop :=
  incl (chats (self w')) (chats (self w)) /\
  exists extra,
    sent (trace w') = (sent (trace w) ++ extra)%list /\
    forall c text, In (c, text) extra -> In c (chats (self w)).

(** The later world has the proxy flag of the earlier one. *)
Definition same_proxy (w w' : World) : Prop :=
  proxy_on (self w') = proxy_on (self w).

(** From the earlier world to the later one subscribers were only taken
    away, cache entries only added, and the proxy flag left alone. *)
Definition shrinks_chats_grows_cache (w w' : World) : Prop :=
  incl (chats (self w')) (chats (self w)) /\
  incl (cache (self w)) (cache (self w')) /\
  proxy_on (self w') = proxy_on (self w).

(** ** A sample run

    A host on UTC and a host five hours west of it, and a bot with three
    subscribers of which one has blocked the bot. *)

Definition sample_slot : string := "/terminvereinbarung/termin/time/1700000000/".

Definition sample_env (offset : Z) : Env := {|
  clock := fun k => 1700000000 + 30 * Z.of_nat k;
  requests_get := fun k _ =>
    match k with
    | 0%nat => inr (Response 429 "")
    | 1%nat => inl (LibraryError "Connection refused")
    | _ => inr (Response 200 "<td class=buchbar>")
    end;
  find_buchbar := fun _ => inr [Td (Some (Some sample_slot)); Td None];
  bot_send := fun _ c _ =>
    if c =? 7 then Some "Forbidden: bot was blocked by the user"
    else if c =? 8 then Some "Timed out" else None;
  utcoffset := fun _ => offset
|}.

Definition env_utc : Env := sample_env 0.

Definition env_west : Env := sample_env (-18000).

(** A host on UTC whose page has no bookable cell. *)
Definition env_quiet : Env := {|
  clock := clock env_utc;
  requests_get := fun _ _ => inr (Response 200 "<html></html>");
  find_buchbar := fun _ => inr [];
  bot_send := bot_send env_utc;
  utcoffset := utcoffset env_utc
|}.

Definition sample_world (k : nat) (seen : list Message) : World :=
  {| self := {| chats := [5; 7; 8]; cache := seen; proxy_on := false |};
     chats_json := Some "[5, 7, 8]"; step := k; trace := [] |}.

(** ** Reasoning about computations *)

Lemma bind_ok {A B} (m : M A) (k : A -> M B) w x w1 :
  m w = (inr x, w1) -> bind m k w = k x w1.
Proof. intros E. unfold bind. now rewrite E. Qed.

Lemma bind_err {A B} (m : M A) (k : A -> M B) w e w1 :
  m w = (inl e, w1) -> bind m k w = (inl e, w1).
Proof. intros E. unfold bind. now rewrite E. Qed.

Lemma total_ret {A} (x : A) : total (ret x).
Proof. intros w. now exists x, w. Qed.

Lemma total_bind {A B} (m : M A) (k : A -> M B) :
  total m -> (forall x, total (k x)) -> total (bind m k).
Proof.
  intros Hm Hk w. destruct (Hm w) as (x & w1 & E).
  rewrite (bind_ok _ _ _ _ _ E). apply Hk.
Qed.

Lemma total_try_catch {A} (m : M A) (h : exn -> M A) :
  (forall e, total (h e)) -> total (try_catch m h).
Proof.
  intros Hh w. unfold try_catch.
  destruct (m w) as [[e | x] w1].
  - apply Hh.
  - now exists x, w1.
Qed.

Lemma total_for_each {A} (l : list A) (body : A -> M unit) :
  (forall x, total (body x)) -> total (for_each l body).
Proof.
  intros Hb. induction l as [| x r IH]; simpl.
  - apply total_ret.
  - apply total_bind; auto.
Qed.

Lemma total_emit e : total (emit e).
Proof. intros w. eexists _, _. reflexivity. Qed.

Lemma total_tick : total tick.
Proof. intros w. eexists _, _. reflexivity. Qed.

Lemma total_modify f : total (modify f).
Proof. intros w. eexists _, _. reflexivity. Qed.

Lemma total_gets {A} (f : Bot -> A) : total (gets f).
Proof. intros w. eexists _, _. reflexivity. Qed.

Lemma total_write s : total (write_chats_json s).
Proof. intros w. eexists _, _. reflexivity. Qed.

Section Respects.

Variable R : World -> World -> Prop.
Hypothesis R_refl : forall w, R w w.
Hypothesis R_trans : forall w1 w2 w3, R w1 w2 -> R w2 w3 -> R w1 w3.

Lemma respects_ret {A} (x : A) : respects R (ret x).
Proof. intros w. apply R_refl. Qed.

Lemma respects_raise {A} e : respects R (@raise A e).
Proof. intros w. apply R_refl. Qed.

Lemma respects_gets {A} (f : Bot -> A) : respects R (gets f).
Proof. intros w. apply R_refl. Qed.

Lemma respects_of_result {A} (r : exn + A) : respects R (of_result r).
Proof. destruct r; [apply respects_raise | apply respects_ret]. Qed.

Lemma respects_bind {A B} (m : M A) (k : A -> M B) :
  respects R m -> (forall x, respects R (k x)) -> respects R (bind m k).
Proof.
  intros Hm Hk w. specialize (Hm w). unfold bind.
  destruct (m w) as [[e | x] w1]; simpl in *; auto.
  eapply R_trans; [exact Hm | apply Hk].
Qed.

Lemma respects_try_catch {A} (m : M A) (h : exn -> M A) :
  respects R m -> (forall e, respects R (h e)) -> respects R (try_catch m h).
Proof.
  intros Hm Hh w. specialize (Hm w). unfold try_catch.
  destruct (m w) as [[e | x] w1]; simpl in *; auto.
  eapply R_trans; [exact Hm | apply Hh].
Qed.

Lemma respects_for_each {A} (l : list A) (body : A -> M unit) :
  (forall x, respects R (body x)) -> respects R (for_each l body).
Proof.
  intros Hb. induction l as [| x r IH]; simpl.
  - apply respects_ret.
  - apply respects_bind; auto.
Qed.

(** In [try: x = m; k x  except: h] followed by [post], what comes after
    [m] respects [R] too. *)
Lemma respects_after_first {A B C}
    (m : M A) (k : A -> M B) (h : exn -> M B) (post : B -> M C) :
  (forall x, respects R (k x)) -> (forall e, respects R (h e)) ->
  (forall f, respects R (post f)) ->
  forall w, R (snd (m w))
              (snd ((f <- try_catch (x <- m ;; k x) h ;; post f) w)).
Proof.
  intros Hk Hh Hp w. unfold bind, try_catch.
  destruct (m w) as [[e | x] w1]; simpl.
  - specialize (Hh e w1).
    destruct (h e w1) as [[e' | f] w2]; simpl in *; auto.
    eapply R_trans; [exact Hh | apply Hp].
  - specialize (Hk x w1).
    destruct (k x w1) as [[e | f] w2]; simpl in *.
    + specialize (Hh e w2).
      destruct (h e w2) as [[e' | f] w3]; simpl in *;
        [eapply R_trans; eauto |].
      eapply R_trans; [exact Hk |]. eapply R_trans; [exact Hh | apply Hp].
    + eapply R_trans; [exact Hk | apply Hp].
Qed.

(** A computation that first looks at the world it starts from. *)
Lemma respects_reading {A} (f : World -> M A) :
  (forall w0, respects R (f w0)) -> respects R (fun w => f w w).
Proof. intros H w. apply (H w w). Qed.

Variable env : Env.

Hypothesis R_emit : forall e, respects R (emit e).
Hypothesis R_tick : respects R tick.
Hypothesis R_write : forall s, respects R (write_chats_json s).
Hypothesis R_set_chats : forall l, respects R (modify (set_chats l)).
Hypothesis R_toggle : respects R toggle_proxy.
Hypothesis R_clear : respects R (clear_cache env).

Lemma respects_logging_info text : respects R (logging_info text).
Proof. apply R_emit. Qed.

Lemma respects_logging_debug text : respects R (logging_debug text).
Proof. apply R_emit. Qed.

Lemma respects_logging_warn e : respects R (logging_warn e).
Proof. apply R_emit. Qed.

Lemma respects_persist_chats : respects R persist_chats.
Proof. apply respects_bind; [apply respects_gets | intros; apply R_write]. Qed.

Lemma respects_add_chat c : respects R (add_chat c).
Proof.
  apply respects_bind; [apply respects_gets | intros l].
  destruct (negb (chat_in c l)); [| apply respects_ret].
  repeat (apply respects_bind; [| intros ?]);
    auto using respects_persist_chats, respects_logging_info.
Qed.

Lemma respects_remove_chat c : respects R (remove_chat c).
Proof.
  unfold remove_chat.
  repeat (apply respects_bind; [| intros ?]);
    auto using respects_persist_chats, respects_logging_info, respects_gets.
Qed.

Lemma respects_time_sleep secs : respects R (time_sleep secs).
Proof. apply respects_bind; auto. Qed.

Lemma respects_time_time : respects R (time_time env).
Proof.
  unfold time_time.
  apply (respects_reading (fun w0 => tick ;; ret (clock env (step w0)))).
  intros w0. apply respects_bind; auto using respects_ret.
Qed.

Lemma respects_get_url : respects R (get_url env).
Proof.
  unfold get_url.
  apply (respects_reading (fun w0 =>
    emit (HttpGet (proxy_on (self w0))) ;; tick ;;
    of_result (requests_get env (step w0) (proxy_on (self w0))))).
  intros w0. repeat (apply respects_bind; [| intros ?]);
    auto using respects_of_result.
Qed.

Lemma respects_find_slots page : respects R (find_slots env page).
Proof. apply respects_bind; auto using respects_of_result. Qed.

Lemma respects_bot_send_message c text : respects R (bot_send_message env c text).
Proof.
  unfold bot_send_message.
  apply (respects_reading (fun w0 =>
    emit (Send c text) ;; tick ;;
    match bot_send env (step w0) c text with
    | None => ret tt
    | Some err => raise (LibraryError err)
    end)).
  intros w0. repeat (apply respects_bind; [| intros ?]); auto.
  destruct (bot_send env (step w0) c text);
    [apply respects_raise | apply respects_ret].
Qed.

Lemma respects_send_to text c : respects R (send_to env text c).
Proof.
  apply respects_bind; [apply R_emit | intros _].
  apply respects_try_catch; [apply respects_bot_send_message | intros e].
  destruct (PyStr.contains _ _); [| apply R_emit].
  apply respects_bind; [apply R_emit | intros _; apply respects_remove_chat].
Qed.

Lemma send_message_eq msg w :
  send_message env msg w =
  if msg_in_cache msg (self w)
  then logging_info "Notification is cached already. Do not repeat sending" w
  else (add_msg_to_cache env msg ;; fan_out env msg) w.
Proof.
  unfold send_message, bind at 1, gets. simpl.
  destruct (msg_in_cache msg (self w)); reflexivity.
Qed.

Lemma respects_fan_out msg : respects R (fan_out env msg).
Proof.
  unfold fan_out.
  apply respects_bind; [apply respects_of_result | intros date].
  apply respects_bind; [apply respects_gets | intros cs].
  apply respects_for_each. intros c. apply respects_send_to.
Qed.

(** From here on the calls of [__send_message] are taken to respect [R];
    [respects_send_message] gives this where the cache update does. *)
Lemma respects_send_message :
  (forall msg, respects R (add_msg_to_cache env msg)) ->
  forall msg, respects R (send_message env msg).
Proof.
  intros Hadd msg w. rewrite send_message_eq.
  destruct (msg_in_cache msg (self w)).
  - apply R_emit.
  - apply (respects_bind _ _ (Hadd msg) (fun _ => respects_fan_out msg)).
Qed.

Hypothesis R_send : forall msg, respects R (send_message env msg).

Lemma respects_notify_slot slot : respects R (notify_slot env slot).
Proof.
  apply respects_bind; [apply R_emit | intros _].
  apply respects_try_catch; [| intros e; apply R_emit].
  apply respects_bind; [apply respects_of_result | intros href; apply R_send].
Qed.

Lemma parse_iteration_eq :
  parse_iteration env =
  (f <- try_catch (page <- get_url env ;; parse_page env page) parse_except ;;
   parse_end f).
Proof. reflexivity. Qed.

Lemma respects_parse_page page : respects R (parse_page env page).
Proof.
  unfold parse_page. destruct (status_code page =? 429).
  - repeat (apply respects_bind; [| intros ?]);
      auto using respects_logging_info, respects_time_sleep, respects_ret.
  - apply respects_bind; [apply respects_find_slots | intros slots].
    apply respects_bind;
      [apply respects_for_each; intros; apply respects_notify_slot | intros _].
    apply respects_bind;
      [destruct (_ =? 0); auto using respects_logging_info, respects_ret
      | intros _].
    apply respects_bind; [apply R_clear | intros; apply respects_ret].
Qed.

Lemma respects_parse_except e : respects R (parse_except e).
Proof.
  repeat (apply respects_bind; [| intros ?]);
    auto using respects_logging_warn, respects_ret.
Qed.

Lemma respects_parse_end f : respects R (parse_end f).
Proof. destruct f; [apply respects_time_sleep | apply respects_ret]. Qed.

Lemma respects_parse_iteration : respects R (parse_iteration env).
Proof.
  rewrite parse_iteration_eq.
  apply respects_bind; [| apply respects_parse_end].
  apply respects_try_catch; [| apply respects_parse_except].
  apply respects_bind; [apply respects_get_url | apply respects_parse_page].
Qed.

(** What follows the request of an iteration. *)
Lemma respects_after_get w :
  R (snd (get_url env w)) (snd (parse_iteration env w)).
Proof.
  rewrite parse_iteration_eq.
  apply respects_after_first;
    auto using respects_parse_page, respects_parse_except, respects_parse_end.
Qed.

Lemma respects_parse n : respects R (parse env n).
Proof.
  induction n as [| n IH]; simpl.
  - apply respects_ret.
  - apply respects_bind; [apply respects_parse_iteration | intros; exact IH].
Qed.

Lemma respects_exec c : respects R (exec env c).
Proof.
  destruct c; simpl;
    try (apply respects_bind; [| intros; apply respects_ret]);
    auto using respects_parse_iteration, respects_get_url,
               respects_find_slots, respects_notify_slot,
               respects_time_sleep, respects_logging_info,
               respects_logging_warn, respects_add_chat,
               respects_remove_chat.
Qed.

Lemma respects_run calls w : R w (run env calls w).
Proof.
  revert w. induction calls as [| c r IH]; intros w; simpl.
  - apply R_refl.
  - eapply R_trans; [apply respects_exec | apply IH].
Qed.

End Respects.

(** ** The cache *)

Lemma msg_in_cache_In msg b :
  msg_in_cache msg b = true <-> exists t, In (Msg msg t) (cache b).
Proof.
  unfold msg_in_cache. rewrite existsb_exists. split.
  - intros ([m t] & Hin & E). simpl in E. apply String.eqb_eq in E.
    subst. now exists t.
  - intros (t & Hin). exists (Msg msg t). split; [exact Hin |].
    apply String.eqb_refl.
Qed.

Lemma msg_in_cache_map msg b :
  msg_in_cache msg b = true <-> In msg (map message (cache b)).
Proof.
  rewrite msg_in_cache_In, in_map_iff. split.
  - intros (t & Hin). now exists (Msg msg t).
  - intros ([m t] & E & Hin). simpl in E. subst. now exists t.
Qed.

Lemma NoDup_map_filter {A B} (f : A -> B) (p : A -> bool) l :
  NoDup (map f l) -> NoDup (map f (filter p l)).
Proof.
  induction l as [| x r IH]; simpl; intros H; [exact H |].
  inversion H as [| ? ? Hx Hr]; subst.
  destruct (p x); simpl; auto.
  constructor; auto.
  intros Hin. apply Hx. rewrite in_map_iff in *.
  destruct Hin as (y & E & Hy). exists y. split; [exact E |].
  now apply filter_In in Hy.
Qed.

Lemma NoDup_map_eq {A B} (f : A -> B) l x y :
  NoDup (map f l) -> In x l -> In y l -> f x = f y -> x = y.
Proof.
  induction l as [| z r IH]; simpl; intros H Hx Hy E; [contradiction |].
  inversion H as [| ? ? Hz Hr]; subst.
  destruct Hx as [-> | Hx], Hy as [-> | Hy]; auto.
  - exfalso. apply Hz. rewrite E. now apply in_map.
  - exfalso. apply Hz. rewrite <- E. now apply in_map.
Qed.

Lemma add_msg_to_cache_eq env msg w :
  add_msg_to_cache env msg w =
  (inr tt,
   {| self := set_cache (cache (self w) ++ [Msg msg (clock env (step w))]) (self w);
      chats_json := chats_json w; step := S (step w); trace := trace w |}).
Proof. reflexivity. Qed.

Lemma clear_cache_eq env w :
  clear_cache env w =
  (inr tt,
   {| self := set_cache
                (filter (fun m => clock env (step w) - ts m <? 300) (cache (self w)))
                (self w);
      chats_json := chats_json w; step := S (step w);
      trace := trace w ++
               match cache (self w) with
               | [] => []
               | _ => [Log INFO "clearing some messages from cache"]
               end |}).
Proof.
  unfold clear_cache, time_time, bind, tick, gets, ret. simpl.
  destruct w as [[cs ca p] f k tr]. simpl.
  destruct ca as [| m r]; simpl.
  - now rewrite app_nil_r.
  - reflexivity.
Qed.

Lemma keeps_refl P w : keeps P w w.
Proof. unfold keeps; auto. Qed.

Lemma keeps_trans P w1 w2 w3 : keeps P w1 w2 -> keeps P w2 w3 -> keeps P w1 w3.
Proof. unfold keeps; auto. Qed.

Lemma fan_out_keeps_cache env msg w :
  cache (self (snd (fan_out env msg w))) = cache (self w).
Proof.
  apply (respects_fan_out (fun u v => cache (self v) = cache (self u)));
    auto; try (intros; intro; reflexivity).
  intros; congruence.
Qed.

Section Window.

Variable env : Env.
Hypothesis clock_mono : monotone env.
Variables (msg : string) (t0 : Z).

Lemma held_later w w' :
  (step w <= step w')%nat ->
  (forall m, In m (cache (self w)) -> clock env (step w) - ts m < 300 ->
             In m (cache (self w'))) ->
  keeps (held env msg t0) w w'.
Proof.
  intros Hstep Hkeep Hw Hlt.
  pose proof (clock_mono _ _ Hstep) as Hc.
  apply Hkeep; [apply Hw |]; simpl; lia.
Qed.

Lemma held_add m : respects (keeps (held env msg t0)) (add_msg_to_cache env m).
Proof.
  intros w. rewrite add_msg_to_cache_eq. apply held_later; simpl.
  - lia.
  - intros x Hx _. apply in_or_app. now left.
Qed.

Lemma held_clear : respects (keeps (held env msg t0)) (clear_cache env).
Proof.
  intros w. rewrite clear_cache_eq. apply held_later; simpl.
  - lia.
  - intros x Hx Hlt. apply filter_In. split; [exact Hx |].
    now apply Z.ltb_lt.
Qed.

Local Ltac held_step :=
  first
    [ exact (keeps_refl _)
    | exact (keeps_trans _)
    | intros; let w := fresh "w" in
      intro w; apply held_later; simpl; auto; lia ].

Lemma held_fan_out m : respects (keeps (held env msg t0)) (fan_out env m).
Proof. apply respects_fan_out; held_step. Qed.

Lemma held_send m : respects (keeps (held env msg t0)) (send_message env m).
Proof. apply respects_send_message; first [exact held_add | held_step]. Qed.

Lemma held_run calls w : keeps (held env msg t0) w (run env calls w).
Proof.
  apply respects_run;
    first [exact held_clear | exact held_send | held_step].
Qed.

End Window.

Section Unique.

Variable env : Env.

Local Ltac same_cache :=
  first
    [ exact (keeps_refl _)
    | exact (keeps_trans _)
    | intros; let w := fresh "w" in let H := fresh "H" in
      intros w H; exact H ].

Lemma unique_clear : respects (keeps cache_unique) (clear_cache env).
Proof.
  intros w H. rewrite clear_cache_eq. unfold cache_unique in *. simpl.
  now apply NoDup_map_filter.
Qed.

Lemma unique_fan_out m : respects (keeps cache_unique) (fan_out env m).
Proof. apply respects_fan_out; same_cache. Qed.

Lemma unique_send m : respects (keeps cache_unique) (send_message env m).
Proof.
  intros w H. rewrite send_message_eq.
  destruct (msg_in_cache m (self w)) eqn:Hc; [exact H |].
  rewrite (bind_ok _ _ _ _ _ (add_msg_to_cache_eq env m w)).
  apply unique_fan_out. unfold cache_unique in *. simpl.
  rewrite map_app. simpl.
  apply NoDup_app; [exact H | repeat constructor; auto |].
  intros x Hx [<- | []].
  apply msg_in_cache_map in Hx. congruence.
Qed.

Lemma unique_run calls w : keeps cache_unique w (run env calls w).
Proof.
  apply respects_run;
    first [exact unique_clear | exact unique_send | same_cache].
Qed.

End Unique.

(** ** The notification cache: C1 and C7 *)

(** C7. A clear pass at time [now] leaves in the cache exactly the entries
    with [now - ts < 300], in their order, and removes exactly those with
    [now - ts >= 300]; afterwards no entry is 300 seconds old or older. *)
Theorem clear_cache_expires_exactly (env : Env) (w : World) :
  let now := clock env (step w) in
  let w' := snd (clear_cache env w) in
  fst (clear_cache env w) = inr tt /\
  cache (self w') = filter (fun m => now - ts m <? 300) (cache (self w)) /\
  (forall m, In m (cache (self w')) <->
             In m (cache (self w)) /\ now - ts m < 300) /\
  (forall m, In m (cache (self w)) -> 300 <= now - ts m ->
             ~ In m (cache (self w'))) /\
  Forall (fun m => now - ts m < 300) (cache (self w')).
Proof.
  intros now w'. subst w'. rewrite clear_cache_eq. simpl. fold now.
  assert (Hin : forall m,
    In m (filter (fun m => now - ts m <? 300) (cache (self w))) <->
    In m (cache (self w)) /\ now - ts m < 300).
  { intros m. rewrite filter_In, Z.ltb_lt. tauto. }
  split; [reflexivity |].
  split; [reflexivity |].
  split; [exact Hin |].
  split.
  - intros m _ Hold H. apply Hin in H. lia.
  - apply Forall_forall. intros m H. now apply Hin in H.
Qed.


(** ** The subscriber registry: C8 and C10 *)

Lemma chat_in_In c l : chat_in c l = true <-> In c l.
Proof.
  unfold chat_in. rewrite existsb_exists. split.
  - intros (x & Hx & E). apply Z.eqb_eq in E. now subst.
  - intros H. exists c. split; [exact H | apply Z.eqb_refl].
Qed.

Lemma add_chat_eq c w :
  add_chat c w =
  if chat_in c (chats (self w)) then (inr tt, w)
  else
    (inr tt,
     {| self := set_chats (chats (self w) ++ [c]) (self w);
        chats_json := Some (Json.dump (chats (self w) ++ [c]));
        step := step w;
        trace := (trace w ++ [Log INFO "adding new chat"])
                   ++ [WriteChats (Json.dump (chats (self w) ++ [c]))] |}).
Proof.
  unfold add_chat, bind, gets. simpl.
  destruct (chat_in c (chats (self w))); reflexivity.
Qed.

Lemma remove_chat_eq c w :
  let l := filter (fun chat => negb (chat =? c)) (chats (self w)) in
  remove_chat c w =
  (inr tt,
   {| self := set_chats l (self w);
      chats_json := Some (Json.dump l);
      step := step w;
      trace := (trace w ++ [Log INFO ("removing the chat " ++ PyStr.str_of_int c)])
                 ++ [WriteChats (Json.dump l)] |}).
Proof. reflexivity. Qed.

(** C8. [__add_chat] and [__remove_chat] keep a list of subscribers free of
    duplicates. *)
Theorem chats_stay_without_duplicates (w : World) (chat_id : Z) :
  NoDup (chats (self w)) ->
  NoDup (chats (self (snd (add_chat chat_id w)))) /\
  NoDup (chats (self (snd (remove_chat chat_id w)))).
Proof.
  intros H. split.
  - rewrite add_chat_eq.
    destruct (chat_in chat_id (chats (self w))) eqn:E; simpl; [exact H |].
    apply NoDup_app; [exact H | repeat constructor; auto |].
    intros x Hx [<- | []]. apply chat_in_In in Hx. congruence.
  - rewrite remove_chat_eq. simpl. now apply NoDup_filter.
Qed.

(** C10. [__add_chat] with a chat that is already subscribed changes
    nothing: the list, the file [chats.json] and the trace stay as they
    are, so the file is not written. *)
Theorem add_chat_of_subscriber_is_noop (w : World) (chat_id : Z) :
  In chat_id (chats (self w)) ->
  add_chat chat_id w = (inr tt, w).
Proof.
  intros H. rewrite add_chat_eq.
  apply chat_in_In in H. now rewrite H.
Qed.

(** ** The polling loop: C4 and C6 *)

Lemma extends_refl w : extends w w.
Proof. exists []. now rewrite List.app_nil_r. Qed.

Lemma extends_trans w1 w2 w3 : extends w1 w2 -> extends w2 w3 -> extends w1 w3.
Proof.
  intros (e1 & H1) (e2 & H2). exists (e1 ++ e2)%list.
  now rewrite H2, H1, app_assoc.
Qed.

Lemma extends_clear env : respects extends (clear_cache env).
Proof. intros w. rewrite clear_cache_eq. eexists. reflexivity. Qed.

Lemma extends_add env m : respects extends (add_msg_to_cache env m).
Proof.
  intros w. rewrite add_msg_to_cache_eq. exists []. simpl.
  now rewrite List.app_nil_r.
Qed.

Local Ltac extends_step :=
  first
    [ apply extends_clear
    | apply extends_add
    | exact extends_refl
    | exact extends_trans
    | intros; let w := fresh "w" in
      intro w;
      first [ apply extends_refl
            | exists []; simpl; now rewrite List.app_nil_r
            | eexists; simpl; reflexivity ] ].

Lemma extends_send env m : respects extends (send_message env m).
Proof.
  apply respects_send_message; extends_step.
Qed.

Lemma extends_parse_iteration env : respects extends (parse_iteration env).
Proof.
  apply respects_parse_iteration;
    first [apply extends_send | extends_step].
Qed.

(** Every iteration starts with the request, made with the proxy flag as
    the iteration finds it. *)
Lemma parse_iteration_starts_with_get env w :
  exists rest,
    trace (snd (parse_iteration env w)) =
    (trace w ++ HttpGet (proxy_on (self w)) :: rest)%list.
Proof.
  assert (H : extends (snd (get_url env w)) (snd (parse_iteration env w))).
  { apply respects_after_get; first [apply extends_send | extends_step]. }
  destruct H as (evs & H). exists evs. rewrite H.
  unfold get_url, bind, emit, tick. simpl.
  destruct (requests_get env (step w) (proxy_on (self w))); simpl;
    now rewrite <- app_assoc.
Qed.

(** C4. An iteration whose request is answered with status 429 logs,
    sleeps 300 seconds, toggles the proxy flag and goes on to the next
    iteration, whose request is made with the toggled flag.  It makes two
    calls to the outside, the request and the sleep: the page is not
    parsed, nothing is sent, the clock is not read and the cache, the
    subscribers and [chats.json] are as before. *)
Theorem rate_limited_iteration (env : Env) (w : World) (page : response) :
  requests_get env (step w) (proxy_on (self w)) = inr page ->
  status_code page = 429 ->
  let p := proxy_on (self w) in
  let w' :=
    {| self := set_proxy_on (negb p) (self w);
       chats_json := chats_json w;
       step := S (S (step w));
       trace := trace w ++
                [HttpGet p;
                 Log INFO "exceeded rate limit. Sleeping for a while";
                 Sleep 300] |} in
  parse_iteration env w = (inr tt, w') /\
  exists rest,
    trace (snd (parse_iteration env w')) =
    (trace w' ++ HttpGet (negb p) :: rest)%list.
Proof.
  intros Hget Hstatus p w'. split.
  - subst p w'.
    unfold parse_iteration, parse_try, get_url, bind, try_catch. simpl.
    rewrite Hget. simpl. rewrite Hstatus. simpl.
    now rewrite <- !app_assoc.
  - apply (parse_iteration_starts_with_get env w').
Qed.

Lemma total_time_sleep secs : total (time_sleep secs).
Proof. apply total_bind; [apply total_emit | intros; apply total_tick]. Qed.

Lemma total_parse_iteration env : total (parse_iteration env).
Proof.
  rewrite parse_iteration_eq. apply total_bind.
  - apply total_try_catch. intros e.
    apply total_bind; [apply total_emit | intros _].
    apply total_bind; [apply total_modify | intros _; apply total_ret].
  - intros [|]; [apply total_time_sleep | apply total_ret].
Qed.

Lemma total_parse env n : total (parse env n).
Proof.
  induction n as [| n IH]; simpl.
  - apply total_ret.
  - apply total_bind; [apply total_parse_iteration | intros; exact IH].
Qed.

(** C6. When the [try] block of an iteration raises, the iteration logs
    the exception, toggles the proxy flag once, sleeps 45 seconds and
    ends normally; and however many iterations the loop makes, from
    whatever world, no exception leaves it. *)
Theorem exception_in_iteration_is_caught
    (env : Env) (w : World) (e : exn) (w1 : World) :
  parse_try env w = (inl e, w1) ->
  parse_iteration env w =
  (inr tt,
   {| self := set_proxy_on (negb (proxy_on (self w1))) (self w1);
      chats_json := chats_json w1;
      step := S (step w1);
      trace := trace w1 ++ [Warn e; Sleep 45] |}) /\
  forall n w0, exists w', parse env n w0 = (inr tt, w').
Proof.
  intros H. split.
  - unfold parse_iteration, bind, try_catch. rewrite H. simpl.
    unfold time_sleep, bind, emit, tick. simpl.
    now rewrite <- !app_assoc.
  - intros n w0. destruct (total_parse env n w0) as ([] & w' & E).
    now exists w'.
Qed.

(** ** The fan-out to the subscribers: C3 and C5 *)

Lemma sent_app tr1 tr2 : sent (tr1 ++ tr2) = (sent tr1 ++ sent tr2)%list.
Proof.
  induction tr1 as [| [] r IH]; simpl; auto. now rewrite IH.
Qed.

Lemma send_to_spec env text c w :
  let o := bot_send env (step w) c text in
  exists w',
    send_to env text c w = (inr tt, w') /\
    step w' = S (step w) /\
    cache (self w') = cache (self w) /\
    proxy_on (self w') = proxy_on (self w) /\
    sent (trace w') = (sent (trace w) ++ [(c, text)])%list /\
    chats (self w') =
      (if blocked o then filter (fun x => negb (x =? c)) (chats (self w))
       else chats (self w)) /\
    (blocked o = false -> chats_json w' = chats_json w).
Proof.
  intros o. subst o.
  unfold send_to, bot_send_message, bind, try_catch, logging_debug, emit, tick.
  simpl.
  destruct (bot_send env (step w) c text) as [err |]; simpl.
  - destruct (PyStr.contains "bot was blocked by the user" err); simpl;
      eexists; (split; [reflexivity |]); simpl;
      rewrite ?sent_app; simpl; rewrite ?List.app_nil_r, <- ?app_assoc;
      repeat split; auto; discriminate.
  - eexists; (split; [reflexivity |]); simpl.
    rewrite ?sent_app; simpl; rewrite ?List.app_nil_r.
    repeat split; auto.
Qed.

Lemma filter_filter {A} (p q : A -> bool) l :
  filter p (filter q l) = filter (fun x => q x && p x) l.
Proof.
  induction l as [| x r IH]; simpl; auto.
  destruct (q x); simpl; [destruct (p x) |]; now rewrite IH.
Qed.

Lemma filter_all {A} (p : A -> bool) l :
  (forall x, p x = true) -> filter p l = l.
Proof.
  intros H. induction l as [| x r IH]; simpl; auto.
  now rewrite H, IH.
Qed.

Lemma for_each_send_to_spec env text cs :
  forall w,
  let os := outcomes env text (step w) cs in
  exists w',
    for_each cs (send_to env text) w = (inr tt, w') /\
    step w' = (step w + List.length cs)%nat /\
    cache (self w') = cache (self w) /\
    proxy_on (self w') = proxy_on (self w) /\
    sent (trace w') = (sent (trace w) ++ map (fun c => (c, text)) cs)%list /\
    chats (self w') = registry_after (chats (self w)) cs os /\
    (blocked_chats cs os = [] -> chats_json w' = chats_json w).
Proof.
  induction cs as [| c r IH]; intros w; simpl.
  - exists w. unfold registry_after. simpl.
    rewrite List.app_nil_r, Nat.add_0_r. repeat split; auto.
    symmetry. now apply filter_all.
  - destruct (send_to_spec env text c w)
      as (w1 & E1 & Hs1 & Hc1 & Hp1 & Ht1 & Hr1 & Hf1).
    destruct (IH w1) as (w2 & E2 & Hs2 & Hc2 & Hp2 & Ht2 & Hr2 & Hf2).
    exists w2. rewrite (bind_ok _ _ _ _ _ E1). rewrite Hs1 in *.
    split; [exact E2 |].
    split; [lia |].
    split; [congruence |].
    split; [congruence |].
    split; [rewrite Ht2, Ht1, <- app_assoc; reflexivity |].
    split.
    + rewrite Hr2, Hr1. unfold registry_after. simpl.
      destruct (blocked (bot_send env (step w) c text)); simpl; auto.
      rewrite filter_filter. apply filter_ext. intros x.
      now rewrite negb_orb.
    + simpl. destruct (blocked (bot_send env (step w) c text));
        [discriminate |].
      intros Hb. rewrite (Hf2 Hb). now apply Hf1.
Qed.

Lemma blocked_chats_incl cs os : incl (blocked_chats cs os) cs.
Proof.
  revert os. induction cs as [| c r IH]; intros [| o os] x; simpl;
    try tauto.
  destruct (blocked o); simpl; intros H.
  - destruct H as [-> | H]; [now left | right; eapply IH; eauto].
  - right. eapply IH; eauto.
Qed.

Lemma registry_after_survivors cs os :
  NoDup cs -> registry_after cs cs os = survivors cs os.
Proof.
  unfold registry_after. revert os.
  induction cs as [| c r IH]; intros os H; [reflexivity |].
  inversion H as [| ? ? Hc Hr]; subst.
  destruct os as [| o os]; [now apply filter_all | simpl].
  assert (Hnot : chat_in c (blocked_chats r os) = false).
  { destruct (chat_in c (blocked_chats r os)) eqn:E; [| reflexivity].
    apply chat_in_In, blocked_chats_incl in E. contradiction. }
  destruct (blocked o); simpl.
  - rewrite Z.eqb_refl. simpl. rewrite <- (IH os Hr).
    apply filter_ext_in. intros x Hx.
    destruct (x =? c) eqn:E; [| reflexivity].
    apply Z.eqb_eq in E. subst. contradiction.
  - rewrite Hnot. simpl. f_equal. apply IH, Hr.
Qed.

Lemma outcomes_length env text k cs :
  List.length (outcomes env text k cs) = List.length cs.
Proof. revert k. induction cs; intros k; simpl; auto. Qed.

Lemma survivors_length cs os :
  List.length os = List.length cs ->
  (List.length (survivors cs os) + List.length (filter blocked os))%nat
  = List.length cs.
Proof.
  revert os. induction cs as [| c r IH]; intros [| o os] H;
    simpl in *; try discriminate; auto.
  injection H as H. specialize (IH os H).
  destruct (blocked o); simpl; lia.
Qed.

Lemma survivors_incl cs os : incl (survivors cs os) cs.
Proof.
  revert os. induction cs as [| c r IH]; intros [| o os] x; simpl;
    try tauto.
  destruct (blocked o); simpl; intros H.
  - right. eapply IH; eauto.
  - destruct H as [-> | H]; [now left | right; eapply IH; eauto].
Qed.

Lemma survivors_nth cs os i c o :
  NoDup cs -> nth_error cs i = Some c -> nth_error os i = Some o ->
  In c (survivors cs os) <-> blocked o = false.
Proof.
  revert os i. induction cs as [| c0 r IH]; intros os i Hnd Hc Ho.
  - destruct i; discriminate.
  - inversion Hnd as [| ? ? Hc0 Hr]; subst.
    destruct os as [| o0 os]; [destruct i; discriminate |].
    destruct i as [| i]; simpl in *.
    + injection Hc as ->. injection Ho as ->.
      destruct (blocked o) eqn:E; simpl.
      * split; [| discriminate]. intros H.
        apply survivors_incl in H. contradiction.
      * split; auto.
    + assert (c <> c0).
      { intros ->. apply Hc0. eapply nth_error_In; eauto. }
      rewrite <- (IH os i Hr Hc Ho).
      destruct (blocked o0); simpl; [tauto |].
      split; [intros [E | H']; [congruence | exact H'] | auto].
Qed.

Lemma survivors_all cs os :
  forallb (fun o => negb (blocked o)) os = true -> survivors cs os = cs.
Proof.
  revert os. induction cs as [| c r IH]; intros [| o os] H; simpl in *; auto.
  apply andb_prop in H. destruct H as [Ho H].
  apply negb_true_iff in Ho. rewrite Ho. f_equal. now apply IH.
Qed.

Lemma blocked_chats_none cs os :
  forallb (fun o => negb (blocked o)) os = true -> blocked_chats cs os = [].
Proof.
  revert os. induction cs as [| c r IH]; intros [| o os] H; simpl in *; auto.
  apply andb_prop in H. destruct H as [Ho H].
  apply negb_true_iff in Ho. rewrite Ho. now apply IH.
Qed.

(** What [__send_message] does with an identifier that is not cached and
    whose date can be derived. *)
Lemma send_message_fresh env w msg date :
  msg_in_cache msg (self w) = false ->
  date_from_msg env msg = inr date ->
  let cs := chats (self w) in
  let os := outcomes env (md_msg date) (S (step w)) cs in
  exists w',
    send_message env msg w = (inr tt, w') /\
    step w' = S (step w + List.length cs) /\
    cache (self w') = (cache (self w) ++ [Msg msg (clock env (step w))])%list /\
    proxy_on (self w') = proxy_on (self w) /\
    sent (trace w') =
      (sent (trace w) ++ map (fun c => (c, md_msg date)) cs)%list /\
    chats (self w') = registry_after cs cs os /\
    (blocked_chats cs os = [] -> chats_json w' = chats_json w).
Proof.
  intros Hc Hd cs os. rewrite send_message_eq, Hc.
  rewrite (bind_ok _ _ _ _ _ (add_msg_to_cache_eq env msg w)).
  unfold fan_out. rewrite Hd. unfold of_result, bind, ret, gets. simpl.
  set (wa := {| self := _ |}).
  destruct (for_each_send_to_spec env (md_msg date) cs wa)
    as (w' & E & Hs & Hca & Hp & Ht & Hr & Hf).
  exists w'. split; [exact E |]. simpl in *.
  repeat split; auto; lia.
Qed.

(** C5. When [__send_message] fans a notification out to a duplicate-free
    list of [N] subscribers, every subscriber gets one delivery attempt,
    in order, whatever the outcome of the attempts before; the subscribers
    left are those whose attempt did not fail as blocked, so [N - M] of
    them when [M] attempts failed as blocked; and when no attempt failed
    as blocked, the list and [chats.json] are as before. *)
Theorem blocked_subscribers_are_removed
    (env : Env) (w : World) (msg date : string) :
  msg_in_cache msg (self w) = false ->
  date_from_msg env msg = inr date ->
  NoDup (chats (self w)) ->
  let cs := chats (self w) in
  let os := outcomes env (md_msg date) (S (step w)) cs in
  let w' := snd (send_message env msg w) in
  fst (send_message env msg w) = inr tt /\
  sent (trace w') = (sent (trace w) ++ map (fun c => (c, md_msg date)) cs)%list /\
  chats (self w') = survivors cs os /\
  List.length (chats (self w')) =
    (List.length cs - List.length (filter blocked os))%nat /\
  (forall i c o, nth_error cs i = Some c -> nth_error os i = Some o ->
                 (In c (chats (self w')) <-> blocked o = false)) /\
  (forallb (fun o => negb (blocked o)) os = true ->
   chats (self w') = cs /\ chats_json w' = chats_json w).
Proof.
  intros Hc Hd Hnd cs os w'.
  destruct (send_message_fresh env w msg date Hc Hd)
    as (w1 & E & Hs & Hca & Hp & Ht & Hr & Hf).
  subst w'. rewrite E. simpl. fold cs os in Hr, Hf, Ht.
  rewrite registry_after_survivors in Hr by exact Hnd.
  split; [reflexivity |].
  split; [exact Ht |].
  split; [exact Hr |].
  split.
  - rewrite Hr.
    pose proof (survivors_length cs os (outcomes_length _ _ _ _)). lia.
  - split.
    + intros i c o Hi Ho. rewrite Hr. now apply (survivors_nth cs os i).
    + intros Hall. split.
      * rewrite Hr. now apply survivors_all.
      * apply Hf. now apply blocked_chats_none.
Qed.

Lemma notify_slot_href env href w :
  notify_slot env (Td (Some (Some href))) w =
  try_catch (send_message env href) logging_warn
            (snd (logging_info "notifing users" w)).
Proof. reflexivity. Qed.

Lemma notify_slot_cached env href w :
  msg_in_cache href (self w) = true ->
  exists w',
    notify_slot env (Td (Some (Some href))) w = (inr tt, w') /\
    self w' = self w /\ step w' = step w /\
    sent (trace w') = sent (trace w).
Proof.
  intros Hc. rewrite notify_slot_href. unfold try_catch.
  rewrite send_message_eq. simpl. rewrite Hc.
  eexists. split; [reflexivity |]. simpl.
  rewrite !sent_app. simpl. now rewrite !List.app_nil_r.
Qed.

Lemma notify_slot_fresh env href date w :
  msg_in_cache href (self w) = false ->
  date_from_msg env href = inr date ->
  exists w',
    notify_slot env (Td (Some (Some href))) w = (inr tt, w') /\
    cache (self w') = (cache (self w) ++ [Msg href (clock env (step w))])%list /\
    sent (trace w') =
      (sent (trace w) ++ map (fun c => (c, md_msg date)) (chats (self w)))%list.
Proof.
  intros Hc Hd. rewrite notify_slot_href. unfold try_catch.
  set (w0 := snd (logging_info "notifing users" w)).
  destruct (send_message_fresh env w0 href date Hc Hd)
    as (w' & E & _ & Hca & _ & Ht & _).
  rewrite E. exists w'. split; [reflexivity |]. split; [exact Hca |].
  rewrite Ht. unfold w0. simpl. rewrite sent_app. simpl.
  now rewrite List.app_nil_r.
Qed.

(** C3, as the code has it. [__send_message] with an identifier that is
    not cached first puts it in the cache, sending nothing, and only then
    goes on to the date and the deliveries; so the identifier is cached
    when the call ends, whether the deliveries succeed, fail or are never
    reached.  When the loop of [__parse] meets two identifiers, one cached
    and one not, in either order, and the date of the uncached one can be
    derived, each subscriber gets exactly one delivery attempt, with the
    message of the uncached identifier. *)
Theorem identifier_is_cached_before_delivery
    (env : Env) (w : World) (msg : string) :
  msg_in_cache msg (self w) = false ->
  let t0 := clock env (step w) in
  (exists wa,
     add_msg_to_cache env msg w = (inr tt, wa) /\
     trace wa = trace w /\
     msg_in_cache msg (self wa) = true /\
     send_message env msg w = fan_out env msg wa) /\
  In (Msg msg t0) (cache (self (snd (send_message env msg w)))) /\
  forall other date,
    msg_in_cache other (self w) = true ->
    date_from_msg env msg = inr date ->
    let slot href := Td (Some (Some href)) in
    let deliveries := map (fun c => (c, md_msg date)) (chats (self w)) in
    sent (trace (snd (for_each [slot other; slot msg] (notify_slot env) w)))
      = (sent (trace w) ++ deliveries)%list /\
    sent (trace (snd (for_each [slot msg; slot other] (notify_slot env) w)))
      = (sent (trace w) ++ deliveries)%list.
Proof.
  intros Hc t0.
  assert (Hsend : send_message env msg w =
                  fan_out env msg (snd (add_msg_to_cache env msg w))).
  { rewrite send_message_eq, Hc.
    now rewrite (bind_ok _ _ _ _ _ (add_msg_to_cache_eq env msg w)). }
  split; [| split].
  - eexists. split; [apply add_msg_to_cache_eq |].
    split; [reflexivity |]. split; [| exact Hsend].
    apply msg_in_cache_In. exists t0. simpl.
    apply in_or_app. right. now left.
  - rewrite Hsend, fan_out_keeps_cache. simpl.
    apply in_or_app. right. now left.
  - intros other date Ho Hd slot deliveries. subst slot. simpl. split.
    + destruct (notify_slot_cached env other w Ho)
        as (w1 & E1 & Hself & Hstep & Ht1).
      rewrite (bind_ok _ _ _ _ _ E1).
      assert (Hc1 : msg_in_cache msg (self w1) = false) by now rewrite Hself.
      destruct (notify_slot_fresh env msg date w1 Hc1 Hd)
        as (w2 & E2 & _ & Ht2).
      rewrite (bind_ok _ _ _ _ _ E2). simpl.
      rewrite Ht2, Ht1, Hself. reflexivity.
    + destruct (notify_slot_fresh env msg date w Hc Hd)
        as (w1 & E1 & Hca & Ht1).
      rewrite (bind_ok _ _ _ _ _ E1).
      assert (Ho1 : msg_in_cache other (self w1) = true).
      { apply msg_in_cache_In. apply msg_in_cache_In in Ho.
        destruct Ho as (t & Hin). exists t. rewrite Hca.
        apply in_or_app. now left. }
      destruct (notify_slot_cached env other w1 Ho1)
        as (w2 & E2 & _ & _ & Ht2).
      rewrite (bind_ok _ _ _ _ _ E2). simpl.
      rewrite Ht2, Ht1. reflexivity.
Qed.

(** ** The store [chats.json]: C9 *)

Module JsonFacts.

Import Json PyStr.

Lemma append_assoc (s1 s2 s3 : string) : (s1 ++ s2) ++ s3 = s1 ++ (s2 ++ s3).
Proof. induction s1 as [| c r IH]; simpl; congruence. Qed.

Lemma length_append (s1 s2 : string) :
  String.length (s1 ++ s2) = (String.length s1 + String.length s2)%nat.
Proof. induction s1 as [| c r IH]; simpl; congruence. Qed.

Lemma span_digits_rest rest :
  ends_number rest -> span_digits rest = (EmptyString, rest).
Proof. destruct rest as [| c r]; simpl; [reflexivity | now intros ->]. Qed.

Lemma span_digits_digits d rest :
  ends_number rest -> span_digits (digits d ++ rest) = (digits d, rest).
Proof.
  intros H. induction d; simpl;
    try (rewrite IHd; reflexivity).
  now apply span_digits_rest.
Qed.

Lemma nzhead_not_D0 d d' : Decimal.nzhead d <> Decimal.D0 d'.
Proof. induction d; simpl; auto; discriminate. Qed.

(** The numeral of a positive number starts with a digit other than 0. *)
Lemma to_uint_head p :
  match Pos.to_uint p with
  | Decimal.Nil | Decimal.D0 _ => False
  | _ => True
  end.
Proof.
  assert (E : Pos.to_uint p = Decimal.unorm (Pos.to_uint p)).
  { rewrite <- (DecimalPos.Unsigned.to_of (Pos.to_uint p)).
    now rewrite DecimalPos.Unsigned.of_to. }
  pose proof (DecimalPos.Unsigned.to_uint_nonzero p) as Hz.
  pose proof (DecimalPos.Unsigned.to_uint_nonnil p) as Hn.
  destruct (Pos.to_uint p) as [| d' | | | | | | | | |] eqn:Eu; auto.
  unfold Decimal.unorm in E.
  destruct (Decimal.nzhead (Decimal.D0 d')) eqn:En;
    try (symmetry in E; now apply nzhead_not_D0 in En);
    try discriminate.
  exact (Hz E).
Qed.

Lemma of_uint_to_uint p : Z.of_uint (Pos.to_uint p) = Z.pos p.
Proof.
  unfold Z.of_uint. now rewrite DecimalPos.Unsigned.of_to.
Qed.

Lemma scan_nat_pos p rest :
  ends_number rest ->
  scan_nat (digits (Pos.to_uint p) ++ rest) = Some (Z.pos p, rest).
Proof.
  intros H. pose proof (to_uint_head p) as Hh.
  pose proof (span_digits_digits (Pos.to_uint p) rest H) as Hs.
  pose proof (DecimalString.NilEmpty.usu (Pos.to_uint p)) as Hu.
  pose proof (of_uint_to_uint p) as Hz.
  unfold scan_nat.
  destruct (Pos.to_uint p) eqn:E; try contradiction;
    cbn [digits DecimalString.NilEmpty.string_of_uint append] in *;
    cbn [Ascii.eqb Bool.eqb is_digit nat_of_ascii andb];
    rewrite Hs; fold (digits u); unfold digits; rewrite Hu, Hz; reflexivity.
Qed.

Lemma str_of_int_pos p : str_of_int (Z.pos p) = digits (Pos.to_uint p).
Proof.
  unfold str_of_int. simpl. pose proof (to_uint_head p).
  destruct (Pos.to_uint p); try contradiction; reflexivity.
Qed.

Lemma str_of_int_neg p :
  str_of_int (Z.neg p) = String "-" (digits (Pos.to_uint p)).
Proof.
  unfold str_of_int. simpl. pose proof (to_uint_head p).
  destruct (Pos.to_uint p); try contradiction; reflexivity.
Qed.

Lemma digits_head p :
  exists c s, digits (Pos.to_uint p) = String c s /\
              is_digit c = true /\ Ascii.eqb c "0" = false.
Proof.
  pose proof (to_uint_head p).
  destruct (Pos.to_uint p); try contradiction; simpl;
    eexists _, _; repeat split.
Qed.

Lemma scan_int_str z rest :
  ends_number rest -> scan_int (str_of_int z ++ rest) = Some (z, rest).
Proof.
  intros H. destruct z as [| p | p].
  - reflexivity.
  - rewrite str_of_int_pos. unfold scan_int.
    pose proof (scan_nat_pos p rest H) as Hs.
    destruct (digits_head p) as (c & s & E & Hd & _).
    rewrite E in *. simpl.
    assert (Ascii.eqb c "-" = false) as ->.
    { destruct (Ascii.eqb_spec c "-"); [subst; discriminate | reflexivity]. }
    exact Hs.
  - rewrite str_of_int_neg. unfold scan_int. simpl.
    now rewrite (scan_nat_pos p rest H).
Qed.

(** [str(n)] starts with a minus sign or a digit. *)
Lemma str_of_int_head z :
  exists c s, str_of_int z = String c s /\
              is_ws c = false /\ Ascii.eqb c "]" = false.
Proof.
  destruct z as [| p | p].
  - now exists "0"%char, EmptyString.
  - rewrite str_of_int_pos. pose proof (to_uint_head p).
    destruct (Pos.to_uint p); try contradiction; simpl;
      eexists _, _; repeat split.
  - rewrite str_of_int_neg. eexists _, _. repeat split.
Qed.

Lemma body_one z : body z [] = str_of_int z ++ "]".
Proof. reflexivity. Qed.

Lemma body_more z z' l :
  body z (z' :: l) = str_of_int z ++ String "," (String " " (body z' l)).
Proof.
  unfold body. cbn [map]. cbn [String.concat].
  now rewrite !append_assoc.
Qed.

Lemma body_head z l :
  exists c s, body z l = String c s /\
              is_ws c = false /\ Ascii.eqb c "]" = false.
Proof.
  destruct (str_of_int_head z) as (c & s & E & Hw & Hc).
  destruct l as [| z' l]; [rewrite body_one | rewrite body_more];
    rewrite E; eexists _, _; repeat split; eauto.
Qed.

Lemma skip_ws_body z l : skip_ws (body z l) = body z l.
Proof.
  destruct (body_head z l) as (c & s & E & Hw & _).
  rewrite E. simpl. now rewrite Hw.
Qed.

Lemma elements_body l : forall z fuel,
  (List.length (z :: l) <= fuel)%nat ->
  elements fuel (body z l) = Some (z :: l, EmptyString).
Proof.
  induction l as [| z' l IH]; intros z [| fuel] Hf; simpl in Hf; try lia.
  - rewrite body_one. cbn [elements].
    rewrite scan_int_str by reflexivity. reflexivity.
  - rewrite body_more. cbn [elements].
    rewrite scan_int_str by reflexivity.
    cbn [skip_ws is_ws Ascii.eqb Bool.eqb orb].
    rewrite skip_ws_body, IH by (simpl; lia). reflexivity.
Qed.

Lemma body_length z l : (List.length (z :: l) <= String.length (body z l))%nat.
Proof.
  revert z. induction l as [| z' l IH]; intros z;
    destruct (str_of_int_head z) as (c & s & E & _).
  - rewrite body_one, length_append, E. simpl. lia.
  - rewrite body_more, length_append, E. specialize (IH z'). simpl in *. lia.
Qed.

Lemma load_dump l : load (dump l) = Some l.
Proof.
  unfold dump. destruct l as [| z l]; [reflexivity |].
  change ("[" ++ String.concat ", " (map str_of_int (z :: l)) ++ "]")
    with (String "[" (body z l)).
  unfold load. cbn [skip_ws is_ws Ascii.eqb Bool.eqb orb].
  pose proof (elements_body l z (S (String.length (body z l)))) as He.
  pose proof (body_length z l) as Hl.
  rewrite skip_ws_body.
  destruct (body_head z l) as (c & s & E & Hw & Hc).
  rewrite E in *. rewrite Hc, He by lia. reflexivity.
Qed.

End JsonFacts.

(** C9. What [__persist_chats] writes, [__get_chats] reads back: a bot
    that starts on the file left by [__persist_chats] has the subscribers
    that were written, in the same order, so the same set. *)
Theorem persisted_chats_are_read_back
    (w : World) (other : Bot) (k : nat) (tr : list event) :
  let w' := snd (persist_chats w) in
  let restart :=
    {| self := other; chats_json := chats_json w'; step := k; trace := tr |} in
  fst (persist_chats w) = inr tt /\
  self w' = self w /\
  fst (get_chats restart) = inr tt /\
  chats (self (snd (get_chats restart))) = chats (self w) /\
  Permutation (chats (self (snd (get_chats restart)))) (chats (self w)) /\
  (forall c, In c (chats (self (snd (get_chats restart)))) <->
             In c (chats (self w))).
Proof.
  intros w' restart.
  assert (E : get_chats restart =
              (inr tt,
               {| self := set_chats (chats (self w)) other;
                  chats_json := chats_json w'; step := k; trace := tr |})).
  { unfold get_chats, bind, read_chats_json. simpl.
    now rewrite JsonFacts.load_dump. }
  rewrite E. simpl. repeat split; auto.
Qed.

(** The same after [__add_chat] with a new chat, and at [Bot.__init__]. *)
Lemma added_chat_is_read_back (w : World) (chat_id : Z) :
  ~ In chat_id (chats (self w)) ->
  let w' := snd (add_chat chat_id w) in
  fst (init (new_world (chats_json w'))) = inr tt /\
  chats (self (snd (init (new_world (chats_json w'))))) =
    (chats (self w) ++ [chat_id])%list.
Proof.
  intros H w'. subst w'. rewrite add_chat_eq.
  destruct (chat_in chat_id (chats (self w))) eqn:E.
  - apply chat_in_In in E. contradiction.
  - unfold init, get_chats, bind, read_chats_json. simpl.
    rewrite JsonFacts.load_dump. simpl. split; reflexivity.
Qed.

(** ** The date of a notification: C2 *)

(** What [__date_from_msg] computes: the segment before the last, read as
    an integer, plus 7200, shown as day and month in the local time of the
    host. *)
Lemma date_from_msg_value (env : Env) (msg seg : string) (n : Z)
    (dt : Calendar.datetime) :
  let msg_arr := PyStr.split "/" msg in
  PyStr.index msg_arr (Z.of_nat (List.length msg_arr) - 2) = Some seg ->
  PyStr.int_of_str seg = Some n ->
  Calendar.fromtimestamp (utcoffset env) (n + 7200) = Some dt ->
  date_from_msg env msg = inr (Calendar.strftime_d_B dt).
Proof.
  intros msg_arr Hseg Hint Hdt. unfold date_from_msg.
  fold msg_arr. now rewrite Hseg, Hint, Hdt.
Qed.

Lemma utcfromtimestamp_in_range (ts : Z) :
  1 <= Calendar.year (Calendar.of_epoch ts) <= 9999 ->
  Calendar.utcfromtimestamp ts = Some (Calendar.of_epoch ts).
Proof.
  intros [H1 H2]. unfold Calendar.utcfromtimestamp.
  apply Z.leb_le in H1, H2. now rewrite H1, H2.
Qed.

(** Where the offset of the host is the same all the time, the call
    gives the local time, when that and the local time one day earlier
    have their year in 1..9999. *)
Lemma fromtimestamp_fixed_offset (offset : Z -> Z) (o ts : Z) :
  (forall t, offset t = o) ->
  1 <= Calendar.year (Calendar.of_epoch (ts - 86400 + o)) <= 9999 ->
  1 <= Calendar.year (Calendar.of_epoch (ts + o)) <= 9999 ->
  Calendar.fromtimestamp offset ts = Some (Calendar.of_epoch (ts + o)).
Proof.
  intros Ho Hprobe Hy.
  unfold Calendar.fromtimestamp, Calendar.localtime.
  rewrite !Ho, Z.sub_diag.
  change Calendar.max_fold_seconds with 86400.
  rewrite (utcfromtimestamp_in_range _ Hy).
  rewrite (utcfromtimestamp_in_range _ Hprobe).
  reflexivity.
Qed.

(** On a host whose local time is UTC the date is the UTC date of the
    segment plus 7200. *)
Lemma date_from_msg_on_utc_host (env : Env) (msg seg : string) (n : Z) :
  (forall t, utcoffset env t = 0) ->
  let msg_arr := PyStr.split "/" msg in
  PyStr.index msg_arr (Z.of_nat (List.length msg_arr) - 2) = Some seg ->
  PyStr.int_of_str seg = Some n ->
  1 <= Calendar.year (Calendar.of_epoch (n + 7200 - 86400)) <= 9999 ->
  1 <= Calendar.year (Calendar.of_epoch (n + 7200)) <= 9999 ->
  date_from_msg env msg =
  inr (Calendar.strftime_d_B (Calendar.of_epoch (n + 7200))).
Proof.
  intros Hutc msg_arr Hseg Hint Hprobe Hy.
  apply (date_from_msg_value env msg seg n _ Hseg Hint).
  rewrite (fromtimestamp_fixed_offset (utcoffset env) 0 (n + 7200) Hutc);
    rewrite Z.add_0_r; auto.
Qed.

(** C2, at an input where the code departs from it. For the identifier
    with segment 1700000000 the instant 1700007200 is the 15th of November
    in UTC; a host on UTC shows that, a host five hours west of UTC shows
    the 14th: [datetime.fromtimestamp] converts to the local time of the
    host. *)
Theorem date_follows_host_time_zone :
  Calendar.strftime_d_B (Calendar.of_epoch 1700007200) = "15 November" /\
  date_from_msg env_utc sample_slot = inr "15 November" /\
  date_from_msg env_west sample_slot = inr "14 November".
Proof. repeat split; vm_compute; reflexivity. Qed.

(** ** The theorems on the sample run *)

Lemma sample_clock_monotone offset : monotone (sample_env offset).
Proof. intros i j H. unfold sample_env, clock. lia. Defined.

Lemma sample_chats_distinct : NoDup [5; 7; 8].
Proof.
  constructor; [simpl; intuition discriminate |].
  constructor; [simpl; intuition discriminate |].
  constructor; [simpl; intuition discriminate | constructor].
Defined.


(** C3 on the sample run. *)
Lemma identifier_is_cached_sample :
  let w := sample_world 2 [] in
  msg_in_cache sample_slot (self w) = false /\
  In (Msg sample_slot (clock env_utc 2))
     (cache (self (snd (send_message env_utc sample_slot w)))).
Proof.
  intros w. split; [reflexivity |].
  destruct (identifier_is_cached_before_delivery env_utc w sample_slot eq_refl)
    as (_ & H & _).
  exact H.
Defined.

(** C3 as the specification words it fails when the date of the uncached
    identifier cannot be derived: of the identifiers ["x"], not cached, and
    [sample_slot], cached, neither is delivered to any of the three
    subscribers, and ["x"] is cached all the same. *)
Lemma no_delivery_without_date :
  let w := sample_world 2 [Msg sample_slot 1700000000] in
  let slot href := Td (Some (Some href)) in
  let w' := snd (for_each [slot sample_slot; slot "x"] (notify_slot env_utc) w) in
  msg_in_cache sample_slot (self w) = true /\
  msg_in_cache "x" (self w) = false /\
  chats (self w) = [5; 7; 8] /\
  sent (trace w') = [] /\
  msg_in_cache "x" (self w') = true.
Proof. vm_compute. repeat split. Qed.

(** C4 on the sample run. *)
Lemma rate_limited_iteration_sample :
  let w := sample_world 0 [] in
  requests_get env_utc (step w) (proxy_on (self w)) = inr (Response 429 "") /\
  status_code (Response 429 "") = 429 /\
  trace (snd (parse_iteration env_utc w)) =
    [HttpGet false;
     Log INFO "exceeded rate limit. Sleeping for a while";
     Sleep 300] /\
  proxy_on (self (snd (parse_iteration env_utc w))) = true.
Proof.
  intros w.
  destruct (rate_limited_iteration env_utc w (Response 429 "") eq_refl eq_refl)
    as [E _].
  split; [reflexivity |]. split; [reflexivity |].
  rewrite E. split; reflexivity.
Defined.

(** C5 on the sample run: of three subscribers one has blocked the bot
    and one times out; two are left. *)
Lemma blocked_subscribers_sample :
  let w := sample_world 2 [] in
  msg_in_cache sample_slot (self w) = false /\
  date_from_msg env_utc sample_slot = inr "15 November" /\
  NoDup (chats (self w)) /\
  chats (self (snd (send_message env_utc sample_slot w))) = [5; 8] /\
  map fst (sent (trace (snd (send_message env_utc sample_slot w)))) = [5; 7; 8].
Proof.
  intros w.
  assert (Hd : date_from_msg env_utc sample_slot = inr "15 November")
    by (vm_compute; reflexivity).
  destruct (blocked_subscribers_are_removed
              env_utc w sample_slot "15 November" eq_refl Hd
              sample_chats_distinct)
    as (_ & Ht & Hr & _).
  split; [reflexivity |]. split; [exact Hd |].
  split; [exact sample_chats_distinct |].
  split.
  - rewrite Hr. vm_compute. reflexivity.
  - rewrite Ht. vm_compute. reflexivity.
Defined.

(** C6 on the sample run: the request raises. *)
Lemma exception_in_iteration_sample :
  let w := sample_world 1 [] in
  let e := LibraryError "Connection refused" in
  let w1 := {| self := self w; chats_json := chats_json w;
               step := 2; trace := [HttpGet false] |} in
  parse_try env_utc w = (inl e, w1) /\
  trace (snd (parse_iteration env_utc w)) = [HttpGet false; Warn e; Sleep 45] /\
  proxy_on (self (snd (parse_iteration env_utc w))) = true.
Proof.
  intros w e w1.
  destruct (exception_in_iteration_is_caught env_utc w e w1 eq_refl) as [E _].
  split; [reflexivity |].
  rewrite E. split; reflexivity.
Defined.

(** C8 on the sample run. *)
Lemma chats_stay_without_duplicates_sample :
  let w := sample_world 0 [] in
  NoDup (chats (self w)) /\
  NoDup (chats (self (snd (add_chat 9 w)))) /\
  NoDup (chats (self (snd (remove_chat 7 w)))).
Proof.
  intros w. split; [exact sample_chats_distinct |].
  split.
  - exact (proj1 (chats_stay_without_duplicates w 9 sample_chats_distinct)).
  - exact (proj2 (chats_stay_without_duplicates w 7 sample_chats_distinct)).
Defined.

(** C10 on the sample run. *)
Lemma add_chat_of_subscriber_sample :
  let w := sample_world 0 [] in
  In 7 (chats (self w)) /\ add_chat 7 w = (inr tt, w).
Proof.
  intros w.
  assert (H : In 7 (chats (self w))) by (simpl; auto).
  split; [exact H |].
  apply (add_chat_of_subscriber_is_noop w 7 H).
Defined.

(** * More of the program

    The rest is about what the theorems above leave out: the command
    handlers, the whole of an iteration, what the loop never does, and the
    segments of an identifier. *)

(** ** Relations that the methods respect as wholes *)

Section Methods.

Variable R : World -> World -> Prop.
Hypothesis R_refl : forall w, R w w.
Hypothesis R_trans : forall w1 w2 w3, R w1 w2 -> R w2 w3 -> R w1 w3.

Variable env : Env.

Hypothesis M_emit : forall e, quiet e = true -> respects R (emit e).
Hypothesis M_tick : respects R tick.
Hypothesis M_deliver : forall c text, respects R (bot_send_message env c text).
Hypothesis M_remove_chat : forall c, respects R (remove_chat c).
Hypothesis M_add_chat : forall c, respects R (add_chat c).
Hypothesis M_add_cache : forall msg, respects R (add_msg_to_cache env msg).
Hypothesis M_toggle : respects R toggle_proxy.
Hypothesis M_clear : respects R (clear_cache env).

Local Ltac seq := apply respects_bind; [exact R_trans | | intros ?].

Lemma methods_info text : respects R (logging_info text).
Proof. now apply M_emit. Qed.

Lemma methods_warn e : respects R (logging_warn e).
Proof. now apply M_emit. Qed.

Lemma methods_time_sleep secs : respects R (time_sleep secs).
Proof. seq; [now apply M_emit | exact M_tick]. Qed.

Lemma methods_get_url : respects R (get_url env).
Proof.
  unfold get_url.
  apply (respects_reading R (fun w0 =>
    emit (HttpGet (proxy_on (self w0))) ;; tick ;;
    of_result (requests_get env (step w0) (proxy_on (self w0))))).
  intros w0. seq; [now apply M_emit |]. seq; [exact M_tick |].
  now apply respects_of_result.
Qed.

Lemma methods_find_slots page : respects R (find_slots env page).
Proof. seq; [now apply M_emit | now apply respects_of_result]. Qed.

Lemma methods_send_to text c : respects R (send_to env text c).
Proof.
  seq; [now apply M_emit |].
  apply respects_try_catch; [exact R_trans | apply M_deliver | intros e].
  destruct (PyStr.contains _ _); [| apply methods_warn].
  seq; [apply methods_info | apply M_remove_chat].
Qed.

Lemma methods_fan_out msg : respects R (fan_out env msg).
Proof.
  unfold fan_out. seq; [now apply respects_of_result |].
  seq; [now apply respects_gets |].
  apply respects_for_each; auto. intros c. apply methods_send_to.
Qed.

Lemma methods_send_message msg : respects R (send_message env msg).
Proof.
  intros w. rewrite send_message_eq.
  destruct (msg_in_cache msg (self w)).
  - now apply M_emit.
  - apply (respects_bind R R_trans _ _ (M_add_cache msg)
             (fun _ => methods_fan_out msg)).
Qed.

Lemma methods_reply_text c text : respects R (reply_text env c text).
Proof. apply M_deliver. Qed.

Lemma methods_start c : respects R (start env c).
Proof.
  seq; [apply M_add_chat |]. seq; [apply methods_info |].
  apply methods_reply_text.
Qed.

Lemma methods_stop c : respects R (stop env c).
Proof. seq; [apply M_remove_chat | apply methods_reply_text]. Qed.

(** From here on [__send_message] is taken as a whole. *)
Hypothesis M_send : forall msg, respects R (send_message env msg).

Lemma methods_notify_slot slot : respects R (notify_slot env slot).
Proof.
  seq; [apply methods_info |].
  apply respects_try_catch; [exact R_trans | | intros e; apply methods_warn].
  seq; [now apply respects_of_result | apply M_send].
Qed.

Lemma methods_notify_slots slots :
  respects R (for_each slots (notify_slot env)).
Proof. apply respects_for_each; auto. apply methods_notify_slot. Qed.

Lemma methods_parse_page page : respects R (parse_page env page).
Proof.
  unfold parse_page. destruct (status_code page =? 429).
  - seq; [apply methods_info |]. seq; [apply methods_time_sleep |].
    seq; [exact M_toggle | now apply respects_ret].
  - seq; [apply methods_find_slots |]. seq; [apply methods_notify_slots |].
    seq; [destruct (_ =? 0); [apply methods_info | now apply respects_ret] |].
    seq; [exact M_clear | now apply respects_ret].
Qed.

Lemma methods_parse_iteration : respects R (parse_iteration env).
Proof.
  rewrite parse_iteration_eq. seq.
  - apply respects_try_catch; [exact R_trans | | intros e].
    + seq; [apply methods_get_url | apply methods_parse_page].
    + seq; [apply methods_warn |].
      seq; [exact M_toggle | now apply respects_ret].
  - destruct x; [apply methods_time_sleep | now apply respects_ret].
Qed.

Lemma methods_parse n : respects R (parse env n).
Proof.
  induction n as [| n IH]; simpl; [now apply respects_ret |].
  seq; [apply methods_parse_iteration | exact IH].
Qed.

Lemma methods_exec c : respects R (exec env c).
Proof.
  destruct c; simpl; auto.
  - apply methods_parse_iteration.
  - seq; [apply methods_get_url | now apply respects_ret].
  - seq; [apply methods_find_slots | now apply respects_ret].
  - apply methods_notify_slot.
  - apply methods_time_sleep.
  - apply methods_info.
  - apply methods_warn.
Qed.

Lemma methods_act a : respects R (act env a).
Proof.
  destruct a as [c | c | c]; simpl.
  - apply methods_exec.
  - apply methods_start.
  - apply methods_stop.
Qed.

Lemma methods_serve l w : R w (serve env l w).
Proof.
  revert w. induction l as [| a r IH]; intros w; simpl.
  - apply R_refl.
  - eapply R_trans; [apply methods_act | apply IH].
Qed.

End Methods.

(** ** What every step and every command keeps *)

Lemma keeps_frame (P : World -> Prop) :
  (forall w w', P w -> P w') ->
  forall {A} (m : M A), respects (keeps P) m.
Proof. intros H A m w Hw. now apply (H w). Qed.

Lemma keeps_deliver (P : World -> Prop) env c text :
  (forall e, respects (keeps P) (emit e)) ->
  respects (keeps P) tick ->
  respects (keeps P) (bot_send_message env c text).
Proof.
  intros He Ht.
  apply respects_bot_send_message;
    auto using keeps_refl. apply keeps_trans.
Qed.

Section Stored.

Variable env : Env.

Lemma stored_same w w' :
  chats (self w') = chats (self w) -> chats_json w' = chats_json w ->
  keeps stored w w'.
Proof. unfold keeps, stored. now intros -> ->. Qed.

Local Ltac stored_step :=
  intros; let w := fresh "w" in
  intro w; apply stored_same; reflexivity.

Lemma stored_remove_chat c : respects (keeps stored) (remove_chat c).
Proof.
  intros w _. rewrite remove_chat_eq. unfold stored. simpl.
  apply JsonFacts.load_dump.
Qed.

Lemma stored_add_chat c : respects (keeps stored) (add_chat c).
Proof.
  intros w H. rewrite add_chat_eq.
  destruct (chat_in c (chats (self w))); [exact H |].
  unfold stored. simpl. apply JsonFacts.load_dump.
Qed.

Lemma stored_serve l w : keeps stored w (serve env l w).
Proof.
  assert (He : forall e, respects (keeps stored) (emit e)) by stored_step.
  assert (Ht : respects (keeps stored) tick) by stored_step.
  assert (Hd : forall c text,
             respects (keeps stored) (bot_send_message env c text))
    by (intros; now apply keeps_deliver).
  assert (Ha : forall msg, respects (keeps stored) (add_msg_to_cache env msg))
    by stored_step.
  assert (Hp : respects (keeps stored) toggle_proxy) by stored_step.
  assert (Hc : respects (keeps stored) (clear_cache env)).
  { intros w0. rewrite clear_cache_eq. now apply stored_same. }
  assert (Hs : forall msg, respects (keeps stored) (send_message env msg)).
  { intros msg. apply methods_send_message;
      auto using keeps_refl, stored_remove_chat. apply keeps_trans. }
  apply methods_serve;
    auto using keeps_refl, stored_remove_chat, stored_add_chat.
  apply keeps_trans.
Qed.

End Stored.

Lemma init_stored file :
  fst (init (new_world file)) = inr tt -> stored (snd (init (new_world file))).
Proof.
  unfold init, get_chats, bind, read_chats_json, stored. simpl.
  destruct file as [s |]; simpl; [| discriminate].
  destruct (Json.load s) as [l |] eqn:E; simpl; [| discriminate].
  intros _. exact E.
Qed.

(** X1. A bot that has started from [chats.json] can be restarted at any
    time: after any sequence of loop steps and commands the file decodes,
    and a bot reading it gets exactly the subscribers of the running one. *)
Theorem subscribers_survive_restart
    (env : Env) (file : option string) (l : list action)
    (other : Bot) (k : nat) (tr : list event) :
  fst (init (new_world file)) = inr tt ->
  let w := serve env l (snd (init (new_world file))) in
  let restart :=
    {| self := other; chats_json := chats_json w; step := k; trace := tr |} in
  fst (get_chats restart) = inr tt /\
  chats (self (snd (get_chats restart))) = chats (self w).
Proof.
  intros Hinit w restart.
  pose proof (stored_serve env l _ (init_stored file Hinit)) as Hs.
  fold w in Hs. unfold stored in Hs.
  unfold get_chats, bind, read_chats_json. simpl.
  destruct (chats_json w) as [s |]; [| contradiction].
  rewrite Hs. split; reflexivity.
Qed.

(** X2. No sequence of loop steps and commands puts a subscriber in the
    list twice: a list without duplicates stays without duplicates through
    the polling loop, its removals of blocked subscribers, and the
    handlers of [/start] and [/stop]. *)
Theorem subscribers_stay_distinct
    (env : Env) (l : list action) (w : World) :
  NoDup (chats (self w)) -> NoDup (chats (self (serve env l w))).
Proof.
  set (P := fun w => NoDup (chats (self w))).
  assert (Hsame : forall {A} (m : M A),
             (forall w, chats (self (snd (m w))) = chats (self w)) ->
             respects (keeps P) m).
  { intros A m H w0 Hw. unfold P. now rewrite H. }
  assert (He : forall e, respects (keeps P) (emit e))
    by (intros; now apply Hsame).
  assert (Ht : respects (keeps P) tick) by now apply Hsame.
  assert (Hr : forall c, respects (keeps P) (remove_chat c)).
  { intros c w0 Hw. unfold P. rewrite remove_chat_eq. simpl.
    now apply NoDup_filter. }
  assert (Ha : forall c, respects (keeps P) (add_chat c)).
  { intros c w0 Hw. unfold P. rewrite add_chat_eq.
    destruct (chat_in c (chats (self w0))) eqn:E; simpl; [exact Hw |].
    apply NoDup_app; [exact Hw | repeat constructor; auto |].
    intros x Hx [<- | []]. apply chat_in_In in Hx. congruence. }
  assert (Hd : forall c text,
             respects (keeps P) (bot_send_message env c text))
    by (intros; now apply keeps_deliver).
  assert (Hc : forall msg, respects (keeps P) (add_msg_to_cache env msg))
    by (intros; now apply Hsame).
  assert (Hp : respects (keeps P) toggle_proxy) by now apply Hsame.
  assert (Hl : respects (keeps P) (clear_cache env)).
  { apply Hsame. intros w0. now rewrite clear_cache_eq. }
  assert (Hs : forall msg, respects (keeps P) (send_message env msg)).
  { intros msg. apply methods_send_message; auto using keeps_refl.
    apply keeps_trans. }
  apply (methods_serve (keeps P)); auto using keeps_refl.
  apply keeps_trans.
Qed.

(** X3. No sequence of loop steps and commands caches an identifier
    twice: each identifier has at most one entry, so one timestamp. *)
Theorem cache_stays_unique (env : Env) (l : list action) (w : World) :
  cache_unique w -> cache_unique (serve env l w).
Proof.
  assert (Hsame : forall {A} (m : M A),
             (forall w, cache (self (snd (m w))) = cache (self w)) ->
             respects (keeps cache_unique) m).
  { intros A m H w0 Hw. unfold cache_unique. now rewrite H. }
  assert (He : forall e, respects (keeps cache_unique) (emit e))
    by (intros; now apply Hsame).
  assert (Ht : respects (keeps cache_unique) tick) by now apply Hsame.
  assert (Hd : forall c text,
             respects (keeps cache_unique) (bot_send_message env c text))
    by (intros; now apply keeps_deliver).
  assert (Hr : forall c, respects (keeps cache_unique) (remove_chat c))
    by (intros; now apply Hsame).
  assert (Ha : forall c, respects (keeps cache_unique) (add_chat c)).
  { intros c. apply Hsame. intros w0. rewrite add_chat_eq.
    now destruct (chat_in c (chats (self w0))). }
  assert (Hp : respects (keeps cache_unique) toggle_proxy)
    by now apply Hsame.
  apply (methods_serve (keeps cache_unique));
    auto using keeps_refl, unique_clear, unique_send.
  apply keeps_trans.
Qed.

(** ** Whom the polling loop writes to *)

Lemma only_subscribers_refl w : only_subscribers w w.
Proof.
  split; [apply incl_refl |]. exists []. split.
  - now rewrite List.app_nil_r.
  - intros c text [].
Qed.

Lemma only_subscribers_trans w1 w2 w3 :
  only_subscribers w1 w2 -> only_subscribers w2 w3 -> only_subscribers w1 w3.
Proof.
  intros (Hi1 & x1 & E1 & H1) (Hi2 & x2 & E2 & H2). split.
  - eapply incl_tran; eauto.
  - exists (x1 ++ x2)%list. split.
    + now rewrite E2, E1, app_assoc.
    + intros c text Hin. apply in_app_or in Hin.
      destruct Hin as [Hin | Hin]; [eauto |]. apply Hi1. eauto.
Qed.

Lemma only_subscribers_same w w' :
  chats (self w') = chats (self w) -> sent (trace w') = sent (trace w) ->
  only_subscribers w w'.
Proof.
  intros Hc Ht. split; [rewrite Hc; apply incl_refl |].
  exists []. split; [now rewrite List.app_nil_r | intros c text []].
Qed.

Lemma sent_quiet tr e : quiet e = true -> sent (tr ++ [e]) = sent tr.
Proof.
  intros H. rewrite sent_app.
  destruct e; try discriminate; simpl; now rewrite List.app_nil_r.
Qed.

Lemma only_subscribers_send env msg :
  respects only_subscribers (send_message env msg).
Proof.
  intros w. rewrite send_message_eq.
  destruct (msg_in_cache msg (self w)) eqn:Hc.
  - apply only_subscribers_same; [reflexivity |].
    simpl. now apply sent_quiet.
  - destruct (date_from_msg env msg) as [e | date] eqn:Hd.
    + rewrite (bind_ok _ _ _ _ _ (add_msg_to_cache_eq env msg w)).
      unfold fan_out. rewrite Hd. simpl.
      now apply only_subscribers_same.
    + destruct (send_message_fresh env w msg date Hc Hd)
        as (w' & E & _ & _ & _ & Ht & Hr & _).
      rewrite send_message_eq, Hc in E. rewrite E. simpl. split.
      * rewrite Hr. unfold registry_after. intros x Hx.
        now apply filter_In in Hx.
      * eexists. split; [exact Ht |].
        intros c text Hin. apply in_map_iff in Hin.
        destruct Hin as (x & Ex & Hx). now injection Ex as -> _.
Qed.

(** X4. The polling loop writes to subscribers only.  Over any number of
    iterations no subscriber is added, every delivery that is attempted
    goes to a chat that was subscribed when the iterations began, and a
    chat that was not subscribed then gets nothing. *)
Theorem loop_writes_to_subscribers_only (env : Env) (n : nat) (w : World) :
  let w' := snd (parse env n w) in
  incl (chats (self w')) (chats (self w)) /\
  (exists extra,
     sent (trace w') = (sent (trace w) ++ extra)%list /\
     forall c text, In (c, text) extra -> In c (chats (self w))) /\
  forall c, ~ In c (chats (self w)) ->
            sent_to c (trace w') = sent_to c (trace w).
Proof.
  intros w'.
  assert (Hsame : forall {A} (m : M A),
             (forall w, chats (self (snd (m w))) = chats (self w) /\
                        sent (trace (snd (m w))) = sent (trace w)) ->
             respects only_subscribers m).
  { intros A m H w0. now apply only_subscribers_same; apply H. }
  assert (H : only_subscribers w w').
  { apply (methods_parse only_subscribers);
      auto using only_subscribers_refl, only_subscribers_send.
    - apply only_subscribers_trans.
    - intros e He. apply Hsame. intros w0. split; [reflexivity |].
      simpl. now apply sent_quiet.
    - apply Hsame. intros w0. rewrite clear_cache_eq. simpl. split; auto.
      rewrite sent_app.
      destruct (cache (self w0)); simpl; now rewrite List.app_nil_r. }
  destruct H as (Hi & extra & E & Hx).
  split; [exact Hi |]. split; [now exists extra |].
  intros c Hc. unfold sent_to. rewrite E, filter_app, map_app.
  assert (Hnone : filter (fun p => fst p =? c) extra = []).
  { clear E. induction extra as [| [c' text] r IH]; [reflexivity |].
    simpl. destruct (c' =? c) eqn:Ec.
    - apply Z.eqb_eq in Ec. subst. exfalso. apply Hc.
      apply (Hx c text). now left.
    - apply IH. intros c0 t0 Hin. apply (Hx c0 t0). now right. }
  rewrite Hnone. simpl. now rewrite List.app_nil_r.
Qed.

(** ** The loop over the slots *)

Lemma total_logging_info text : total (logging_info text).
Proof. apply total_emit. Qed.

Lemma total_logging_warn e : total (logging_warn e).
Proof. apply total_emit. Qed.

Lemma total_notify_slot env slot : total (notify_slot env slot).
Proof.
  apply total_bind; [apply total_logging_info | intros _].
  apply total_try_catch. intros e. apply total_logging_warn.
Qed.

Lemma log_twice w e1 e2 :
  {| self := self w; chats_json := chats_json w; step := step w;
     trace := (trace w ++ [e1]) ++ [e2] |} =
  {| self := self w; chats_json := chats_json w; step := step w;
     trace := trace w ++ [e1; e2] |}.
Proof. now rewrite <- app_assoc. Qed.

(** X5. No slot makes the loop over the slots raise: whatever the cells
    are and whatever the deliveries do, the loop gets to its end.  A cell
    without a link, and a link without [href], cost a log line and a
    warning, and change nothing else. *)
Theorem slots_never_stop_the_loop (env : Env) (w : World) :
  (forall slots, fst (for_each slots (notify_slot env) w) = inr tt) /\
  notify_slot env (Td None) w =
    (inr tt,
     {| self := self w; chats_json := chats_json w; step := step w;
        trace := trace w ++ [Log INFO "notifing users"; Warn TypeError] |}) /\
  notify_slot env (Td (Some None)) w =
    (inr tt,
     {| self := self w; chats_json := chats_json w; step := step w;
        trace := trace w ++
                 [Log INFO "notifing users"; Warn (KeyError "href")] |}).
Proof.
  split; [| split].
  - intros slots.
    destruct (total_for_each slots (notify_slot env)
                (total_notify_slot env) w) as ([] & w' & E).
    now rewrite E.
  - unfold notify_slot, bind, try_catch, logging_info, logging_warn, emit.
    simpl. now rewrite log_twice.
  - unfold notify_slot, bind, try_catch, logging_info, logging_warn, emit.
    simpl. now rewrite log_twice.
Qed.


Lemma shrinks_refl w : shrinks_chats_grows_cache w w.
Proof. repeat split; apply incl_refl. Qed.

Lemma shrinks_trans w1 w2 w3 :
  shrinks_chats_grows_cache w1 w2 -> shrinks_chats_grows_cache w2 w3 ->
  shrinks_chats_grows_cache w1 w3.
Proof.
  intros (A1 & B1 & C1) (A2 & B2 & C2). repeat split.
  - eapply incl_tran; eauto.
  - eapply incl_tran; eauto.
  - congruence.
Qed.

Lemma same_proxy_notify_slots env slots w :
  proxy_on (self (snd (for_each slots (notify_slot env) w))) = proxy_on (self w).
Proof.
  set (R := same_proxy).
  assert (Hsame : forall {A} (m : M A),
             (forall w, self (snd (m w)) = self w) -> respects R m).
  { intros A m H w0. unfold R, same_proxy. now rewrite H. }
  assert (Hrefl : forall w, R w w) by reflexivity.
  assert (Htrans : forall w1 w2 w3, R w1 w2 -> R w2 w3 -> R w1 w3)
    by (unfold R, same_proxy; intros; congruence).
  assert (He : forall e, respects R (emit e)) by (intros; now apply Hsame).
  assert (Ht : respects R tick) by now apply Hsame.
  assert (Hd : forall c text, respects R (bot_send_message env c text))
    by (intros; now apply respects_bot_send_message).
  assert (Hr : forall c, respects R (remove_chat c))
    by (intros c w0; now rewrite remove_chat_eq).
  assert (Ha : forall msg, respects R (add_msg_to_cache env msg))
    by (intros msg w0; now rewrite add_msg_to_cache_eq).
  assert (Hs : forall msg, respects R (send_message env msg))
    by (intros msg; now apply methods_send_message).
  now apply (methods_notify_slots R).
Qed.

(** X7. A pass over the slots only takes subscribers away and only adds
    to the cache: no chat is subscribed by it, no cache entry is dropped
    or changed, and the proxy flag stays as it is. *)
Theorem slots_loop_shrinks_chats_grows_cache
    (env : Env) (slots : list td) (w : World) :
  let w' := snd (for_each slots (notify_slot env) w) in
  incl (chats (self w')) (chats (self w)) /\
  incl (cache (self w)) (cache (self w')) /\
  proxy_on (self w') = proxy_on (self w).
Proof.
  set (R := shrinks_chats_grows_cache).
  assert (Hsame : forall {A} (m : M A),
             (forall w, self (snd (m w)) = self w) -> respects R m).
  { intros A m H w0. unfold R, shrinks_chats_grows_cache. rewrite H.
    repeat split; apply incl_refl. }
  assert (He : forall e, respects R (emit e)) by (intros; now apply Hsame).
  assert (Ht : respects R tick) by now apply Hsame.
  assert (Hd : forall c text, respects R (bot_send_message env c text)).
  { intros. apply respects_bot_send_message;
      auto using shrinks_refl. apply shrinks_trans. }
  assert (Hr : forall c, respects R (remove_chat c)).
  { intros c w0. rewrite remove_chat_eq. repeat split; simpl;
      try apply incl_refl.
    intros x Hx. now apply filter_In in Hx. }
  assert (Ha : forall msg, respects R (add_msg_to_cache env msg)).
  { intros msg w0. rewrite add_msg_to_cache_eq. repeat split; simpl;
      try apply incl_refl.
    intros x Hx. apply in_or_app. now left. }
  assert (Hs : forall msg, respects R (send_message env msg)).
  { intros msg. apply methods_send_message; auto using shrinks_refl.
    apply shrinks_trans. }
  apply (methods_notify_slots R); auto using shrinks_refl.
  apply shrinks_trans.
Qed.


(** ** An iteration that gets its page *)

Lemma iteration_on_page env w page slots :
  requests_get env (step w) (proxy_on (self w)) = inr page ->
  (status_code page =? 429) = false ->
  find_buchbar env (content page) = inr slots ->
  let w1 :=
    {| self := self w; chats_json := chats_json w; step := S (step w);
       trace := trace w ++
                [HttpGet (proxy_on (self w)); Soup (content page)] |} in
  let w2 := snd (for_each slots (notify_slot env) w1) in
  let w3 :=
    snd ((if Z.of_nat (List.length slots) =? 0
          then logging_info "no luck yet" else ret tt) w2) in
  parse_iteration env w = time_sleep 45 (snd (clear_cache env w3)).
Proof.
  intros Hget Hstatus Hfind w1 w2 w3.
  assert (E1 : (page <- get_url env ;; parse_page env page) w
               = parse_page env page
                   {| self := self w; chats_json := chats_json w;
                      step := S (step w);
                      trace := trace w ++ [HttpGet (proxy_on (self w))] |}).
  { unfold get_url, bind, emit, tick. simpl. now rewrite Hget. }
  assert (E2 : forall w0,
             find_slots env page w0 =
             (inr slots,
              {| self := self w0; chats_json := chats_json w0;
                 step := step w0;
                 trace := trace w0 ++ [Soup (content page)] |})).
  { intros w0. unfold find_slots, bind, emit. simpl. now rewrite Hfind. }
  rewrite parse_iteration_eq. unfold bind at 1, try_catch.
  rewrite E1. unfold parse_page. rewrite Hstatus.
  rewrite (bind_ok _ _ _ _ _ (E2 _)). simpl. rewrite <- app_assoc. simpl.
  fold w1.
  destruct (total_for_each slots (notify_slot env)
              (total_notify_slot env) w1) as ([] & w2' & E3).
  rewrite (bind_ok _ _ _ _ _ E3).
  assert (w2 = w2') as <- by (unfold w2; now rewrite E3).
  assert (E4 : (if Z.of_nat (List.length slots) =? 0
                then logging_info "no luck yet" else ret tt) w2
               = (inr tt, w3)).
  { unfold w3. now destruct (_ =? 0). }
  rewrite (bind_ok _ _ _ _ _ E4).
  rewrite (bind_ok _ _ _ _ _ (clear_cache_eq env w3)).
  rewrite clear_cache_eq. reflexivity.
Qed.

(** X8. The proxy flag changes on a 429 and on an exception, and on
    nothing else: an iteration whose request is answered with another
    status and whose page can be parsed ends normally, with the flag it
    started with.  Its trace starts with the request and the parse and
    ends with the sleep of 45 seconds. *)
Theorem normal_iteration_keeps_proxy
    (env : Env) (w : World) (page : response) (slots : list td) :
  requests_get env (step w) (proxy_on (self w)) = inr page ->
  status_code page <> 429 ->
  find_buchbar env (content page) = inr slots ->
  exists w',
    parse_iteration env w = (inr tt, w') /\
    proxy_on (self w') = proxy_on (self w) /\
    exists evs,
      trace w' =
      (trace w ++ [HttpGet (proxy_on (self w)); Soup (content page)]
               ++ evs ++ [Sleep 45])%list.
Proof.
  intros Hget Hstatus Hfind. apply Z.eqb_neq in Hstatus.
  pose (w1 := {| self := self w; chats_json := chats_json w;
                 step := S (step w);
                 trace := trace w ++
                          [HttpGet (proxy_on (self w)); Soup (content page)] |}).
  pose (w2 := snd (for_each slots (notify_slot env) w1)).
  pose (w3 := snd ((if Z.of_nat (List.length slots) =? 0
                    then logging_info "no luck yet" else ret tt) w2)).
  assert (E : parse_iteration env w = time_sleep 45 (snd (clear_cache env w3)))
    by exact (iteration_on_page env w page slots Hget Hstatus Hfind).
  rewrite E.
  pose proof (same_proxy_notify_slots env slots w1) as Hp.
  fold w2 in Hp.
  assert (Hx : extends w1 w2).
  { apply (methods_notify_slots extends);
      auto using extends_refl, extends_send.
    - apply extends_trans.
    - intros e _ w0. eexists. reflexivity. }
  assert (Hx3 : extends w2 w3 /\ self w3 = self w2).
  { unfold w3. destruct (_ =? 0); simpl.
    - split; [eexists; reflexivity | reflexivity].
    - split; [apply extends_refl | reflexivity]. }
  destruct Hx as (e1 & Hx), Hx3 as ((e2 & Hx3) & Hs3).
  rewrite clear_cache_eq. eexists. split; [reflexivity |]. simpl.
  split.
  - rewrite Hs3, Hp. reflexivity.
  - rewrite Hx3, Hx. unfold w1. simpl.
    exists (e1 ++ e2 ++
            match cache (self w3) with
            | [] => []
            | _ => [Log INFO "clearing some messages from cache"]
            end)%list.
    rewrite <- !app_assoc. reflexivity.
Qed.

(** X9. An iteration that finds no bookable cell sends nothing and
    touches no subscriber: it makes the request, parses the page, logs
    that there was no luck, clears the cache at the time it reads then,
    and sleeps 45 seconds. *)
Theorem iteration_without_slots (env : Env) (w : World) (page : response) :
  requests_get env (step w) (proxy_on (self w)) = inr page ->
  status_code page <> 429 ->
  find_buchbar env (content page) = inr [] ->
  parse_iteration env w =
  (inr tt,
   {| self := set_cache
                (filter (fun m => clock env (S (step w)) - ts m <? 300)
                        (cache (self w)))
                (self w);
      chats_json := chats_json w;
      step := S (S (S (step w)));
      trace := trace w ++
               [HttpGet (proxy_on (self w)); Soup (content page);
                Log INFO "no luck yet"] ++
               match cache (self w) with
               | [] => []
               | _ => [Log INFO "clearing some messages from cache"]
               end ++ [Sleep 45] |}).
Proof.
  intros Hget Hstatus Hfind. apply Z.eqb_neq in Hstatus.
  rewrite (iteration_on_page env w page [] Hget Hstatus Hfind).
  simpl. rewrite clear_cache_eq. simpl.
  unfold time_sleep, bind, emit, tick. simpl.
  now rewrite <- !app_assoc.
Qed.

(** ** The segments of an identifier *)

Lemma split_nonempty sep s : PyStr.split sep s <> [].
Proof.
  destruct s as [| c r]; simpl; [discriminate |].
  destruct (Ascii.eqb c sep); [discriminate |].
  destruct (PyStr.split sep r); discriminate.
Qed.

Lemma split_plain sep s :
  ~ In sep (list_ascii_of_string s) -> PyStr.split sep s = [s].
Proof.
  induction s as [| c r IH]; simpl; intros H; [reflexivity |].
  destruct (Ascii.eqb_spec c sep) as [-> | Hc]; [exfalso; auto |].
  rewrite IH by auto. reflexivity.
Qed.

Lemma split_append sep p x :
  PyStr.split sep (p ++ String sep x) =
  (PyStr.split sep p ++ PyStr.split sep x)%list.
Proof.
  induction p as [| c r IH]; simpl.
  - now rewrite Ascii.eqb_refl.
  - destruct (Ascii.eqb c sep); rewrite IH; [reflexivity |].
    pose proof (split_nonempty sep r).
    destruct (PyStr.split sep r); [contradiction | reflexivity].
Qed.

Lemma index_last_but_one {A} (l : list A) (x y : A) :
  PyStr.index (l ++ [x; y]) (Z.of_nat (List.length (l ++ [x; y])) - 2) = Some x.
Proof.
  unfold PyStr.index. rewrite length_app. simpl List.length.
  replace (Z.of_nat (List.length l + 2) - 2) with (Z.of_nat (List.length l))
    by lia.
  destruct (Z.ltb_spec (Z.of_nat (List.length l)) 0); [lia |].
  destruct (Z.leb_spec 0 (Z.of_nat (List.length l))); [| lia].
  destruct (Z.ltb_spec (Z.of_nat (List.length l))
                       (Z.of_nat (List.length l + 2))); [| lia].
  simpl. rewrite Nat2Z.id, nth_error_app2 by lia.
  now rewrite Nat.sub_diag.
Qed.

(** The date that a segment gives when it is the one that is read. *)
Lemma date_of_segment env msg seg :
  PyStr.index (PyStr.split "/" msg)
              (Z.of_nat (List.length (PyStr.split "/" msg)) - 2) = Some seg ->
  date_from_msg env msg =
  match PyStr.int_of_str seg with
  | None =>
      inl (ValueError ("invalid literal for int() with base 10: '" ++ seg ++ "'"))
  | Some n =>
      match Calendar.fromtimestamp (utcoffset env) (n + 7200) with
      | None => inl (ValueError "year is out of range")
      | Some dt => inr (Calendar.strftime_d_B dt)
      end
  end.
Proof. intros H. unfold date_from_msg. now rewrite H. Qed.

(** X10. The date is read from the segment before the last one, whatever
    comes before it; and an identifier without any slash is read as a
    whole, by Python's negative index, so that [__date_from_msg] never
    fails on the index: the date of [prefix/seg/last] is the date of
    [seg] alone. *)
Theorem date_reads_segment_before_last
    (env : Env) (prefix seg last : string) :
  ~ In "/"%char (list_ascii_of_string seg) ->
  ~ In "/"%char (list_ascii_of_string last) ->
  date_from_msg env (prefix ++ String "/" (seg ++ String "/" last)) =
    date_from_msg env seg /\
  date_from_msg env seg =
    match PyStr.int_of_str seg with
    | None =>
        inl (ValueError ("invalid literal for int() with base 10: '" ++ seg ++ "'"))
    | Some n =>
        match Calendar.fromtimestamp (utcoffset env) (n + 7200) with
        | None => inl (ValueError "year is out of range")
        | Some dt => inr (Calendar.strftime_d_B dt)
        end
    end.
Proof.
  intros Hseg Hlast.
  assert (E1 : date_from_msg env seg = _)
    by (apply (date_of_segment env seg seg);
        rewrite (split_plain _ _ Hseg); reflexivity).
  split; [| exact E1]. rewrite E1.
  apply date_of_segment.
  rewrite !split_append, (split_plain _ _ Hseg), (split_plain _ _ Hlast).
  apply index_last_but_one.
Qed.

Lemma day_of_instant secs k :
  86400 * k <= secs < 86400 * (k + 1) ->
  Calendar.year (Calendar.of_epoch secs) = Calendar.year (Calendar.of_epoch (86400 * k)) /\
  Calendar.strftime_d_B (Calendar.of_epoch secs) =
  Calendar.strftime_d_B (Calendar.of_epoch (86400 * k)).
Proof.
  intros H.
  assert (E1 : secs / 86400 = k)
    by (symmetry; apply (Z.div_unique secs 86400 k (secs - 86400 * k)); lia).
  assert (E2 : 86400 * k / 86400 = k)
    by (symmetry; apply (Z.div_unique (86400 * k) 86400 k 0); lia).
  unfold Calendar.of_epoch, Calendar.strftime_d_B. rewrite E1, E2.
  destruct (Calendar.civil_from_days k) as [[y m] d]. split; reflexivity.
Qed.

(** X11. On a host whose local time is UTC, a slot whose timestamp lies
    between 22:00 UTC of the day before day [k] and 22:00 UTC of day [k]
    is announced with the date of day [k]: so are the midnights of Berlin
    in summer (22:00 UTC) and in winter (23:00 UTC), which is what the
    7200 seconds are added for.  Day [k] and the day before it are days
    of the years 1..9999, since [datetime.fromtimestamp] also converts the
    instant 24 hours earlier; the segment has at most 4300 characters,
    the most digits [int()] takes by default. *)
Theorem date_is_the_day_after_shift
    (env : Env) (msg seg : string) (n k : Z) :
  (forall t, utcoffset env t = 0) ->
  PyStr.index (PyStr.split "/" msg)
              (Z.of_nat (List.length (PyStr.split "/" msg)) - 2) = Some seg ->
  (String.length seg <= 4300)%nat ->
  PyStr.int_of_str seg = Some n ->
  86400 * k - 7200 <= n < 86400 * (k + 1) - 7200 ->
  1 <= Calendar.year (Calendar.of_epoch (86400 * (k - 1))) <= 9999 ->
  1 <= Calendar.year (Calendar.of_epoch (86400 * k)) <= 9999 ->
  Calendar.fromtimestamp (utcoffset env) (n + 7200) =
    Some (Calendar.of_epoch (n + 7200)) /\
  date_from_msg env msg =
  inr (Calendar.strftime_d_B (Calendar.of_epoch (86400 * k))).
Proof.
  intros Hutc Hseg _ Hint Hn Hprobe Hy.
  destruct (day_of_instant (n + 7200) k) as [Ey Ed]; [lia |].
  destruct (day_of_instant (n + 7200 - 86400) (k - 1)) as [Ep _]; [lia |].
  assert (Hdt : Calendar.fromtimestamp (utcoffset env) (n + 7200) =
                Some (Calendar.of_epoch (n + 7200))).
  { rewrite (fromtimestamp_fixed_offset (utcoffset env) 0 (n + 7200) Hutc);
      rewrite Z.add_0_r.
    - reflexivity.
    - rewrite Ep. exact Hprobe.
    - rewrite Ey. exact Hy. }
  split; [exact Hdt |].
  rewrite (date_from_msg_value env msg seg n _ Hseg Hint Hdt).
  now rewrite Ed.
Qed.

(** ** The commands [/start] and [/stop] *)

Lemma reply_text_eq env c text w :
  reply_text env c text w =
  (match bot_send env (step w) c text with
   | None => inr tt
   | Some err => inl (LibraryError err)
   end,
   {| self := self w; chats_json := chats_json w; step := S (step w);
      trace := trace w ++ [Send c text] |}).
Proof.
  unfold reply_text, bot_send_message, bind, emit, tick. simpl.
  now destruct (bot_send env (step w) c text).
Qed.

Lemma filter_not_in c l :
  ~ In c l -> filter (fun chat => negb (chat =? c)) l = l.
Proof.
  intros H. induction l as [| x r IH]; simpl; [reflexivity |].
  destruct (x =? c) eqn:E.
  - apply Z.eqb_eq in E. subst. exfalso. apply H. now left.
  - simpl. f_equal. apply IH. intros Hin. apply H. now right.
Qed.

Lemma start_eq env c w :
  let wa := snd (add_chat c w) in
  start env c w =
  (match bot_send env (step w) c
           "Welcome to EinburgerungBot. When there will be slot - you will receive notification. To stop it - just type /stop"
   with
   | None => inr tt
   | Some err => inl (LibraryError err)
   end,
   {| self := self wa; chats_json := chats_json wa; step := S (step w);
      trace := trace wa ++
               [Log INFO ("got new user with id " ++ PyStr.str_of_int c);
                Send c "Welcome to EinburgerungBot. When there will be slot - you will receive notification. To stop it - just type /stop"] |}).
Proof.
  intros wa. subst wa. unfold start. unfold bind at 1.
  rewrite add_chat_eq.
  destruct (chat_in c (chats (self w)));
    unfold bind, logging_info, emit; rewrite reply_text_eq; simpl;
    now rewrite <- !app_assoc.
Qed.

Lemma stop_eq env c w :
  let wr := snd (remove_chat c w) in
  stop env c w =
  (match bot_send env (step w) c "Thanks for using me! Bye!" with
   | None => inr tt
   | Some err => inl (LibraryError err)
   end,
   {| self := self wr; chats_json := chats_json wr; step := S (step w);
      trace := trace wr ++ [Send c "Thanks for using me! Bye!"] |}).
Proof.
  intros wr. subst wr. unfold stop.
  rewrite (bind_ok _ _ _ _ _ (remove_chat_eq c w)).
  now rewrite reply_text_eq.
Qed.

Lemma sent_snoc_send tr c text :
  sent (tr ++ [Send c text]) = (sent tr ++ [(c, text)])%list.
Proof. now rewrite sent_app. Qed.

(** X12. [/start] subscribes before it answers: afterwards the chat is a
    subscriber, at the end of the list if it is new, whether the welcome
    message could be delivered or not; the welcome is attempted once, and
    when it fails the exception leaves the handler with the subscription
    made. *)
Theorem start_subscribes_before_reply (env : Env) (w : World) (chat_id : Z) :
  let welcome :=
    "Welcome to EinburgerungBot. When there will be slot - you will receive notification. To stop it - just type /stop" in
  let w' := snd (start env chat_id w) in
  In chat_id (chats (self w')) /\
  chats (self w') =
    (if chat_in chat_id (chats (self w)) then chats (self w)
     else chats (self w) ++ [chat_id])%list /\
  sent (trace w') = (sent (trace w) ++ [(chat_id, welcome)])%list /\
  fst (start env chat_id w) =
    match bot_send env (step w) chat_id welcome with
    | None => inr tt
    | Some err => inl (LibraryError err)
    end.
Proof.
  intros welcome w'. subst w' welcome. rewrite start_eq. simpl.
  rewrite add_chat_eq.
  destruct (chat_in chat_id (chats (self w))) eqn:Ein; simpl.
  - apply chat_in_In in Ein.
    rewrite !sent_app. simpl. rewrite ?List.app_nil_r. auto.
  - rewrite !sent_app. simpl. rewrite ?List.app_nil_r.
    repeat split. apply in_or_app. right. now left.
Qed.

(** X13. [/stop] unsubscribes before it answers: afterwards the chat is
    not a subscriber, every other subscriber is kept in place, the file is
    rewritten with the new list even when the chat was not subscribed, and
    the farewell is attempted once. *)
Theorem stop_unsubscribes_before_reply (env : Env) (w : World) (chat_id : Z) :
  let w' := snd (stop env chat_id w) in
  ~ In chat_id (chats (self w')) /\
  chats (self w') =
    filter (fun chat => negb (chat =? chat_id)) (chats (self w)) /\
  (forall c, c <> chat_id ->
             (In c (chats (self w')) <-> In c (chats (self w)))) /\
  chats_json w' = Some (Json.dump (chats (self w'))) /\
  sent (trace w') =
    (sent (trace w) ++ [(chat_id, "Thanks for using me! Bye!")])%list /\
  fst (stop env chat_id w) =
    match bot_send env (step w) chat_id "Thanks for using me! Bye!" with
    | None => inr tt
    | Some err => inl (LibraryError err)
    end.
Proof.
  intros w'. subst w'. rewrite stop_eq. simpl.
  rewrite !sent_app. simpl. rewrite ?List.app_nil_r.
  split; [| split; [| split; [| split; [| split]]]]; auto.
  - intros H. apply filter_In in H. destruct H as [_ H].
    now rewrite Z.eqb_refl in H.
  - intros c Hc. rewrite filter_In. split; [tauto |].
    intros H. split; [exact H |].
    apply negb_true_iff, Z.eqb_neq. exact Hc.
Qed.

Lemma filter_snoc_absent c l :
  ~ In c l -> filter (fun chat => negb (chat =? c)) (l ++ [c]) = l.
Proof.
  intros H. rewrite filter_app. simpl. rewrite Z.eqb_refl. simpl.
  rewrite List.app_nil_r. now apply filter_not_in.
Qed.

(** X14. [/start] and then [/stop] of a chat that was not subscribed
    leave the subscribers as they were, in their order, and the file
    holds them. *)
Theorem start_then_stop_restores_subscribers
    (env : Env) (w : World) (chat_id : Z) :
  ~ In chat_id (chats (self w)) ->
  let w' := snd (stop env chat_id (snd (start env chat_id w))) in
  chats (self w') = chats (self w) /\
  chats_json w' = Some (Json.dump (chats (self w))).
Proof.
  intros H w'. subst w'. rewrite stop_eq, start_eq. simpl.
  rewrite add_chat_eq.
  destruct (chat_in chat_id (chats (self w))) eqn:E.
  - apply chat_in_In in E. contradiction.
  - simpl. now rewrite (filter_snoc_absent _ _ H).
Qed.

(** X15. The list of subscribers as a set: [__add_chat] adds the chat and
    nothing else, [__remove_chat] takes out the chat, every copy of it, and
    nothing else; removing a chat that is not subscribed leaves the list
    as it is, and still rewrites the file. *)
Theorem add_and_remove_as_set_operations (w : World) (chat_id : Z) :
  let wa := snd (add_chat chat_id w) in
  let wr := snd (remove_chat chat_id w) in
  (forall c, In c (chats (self wa)) <-> In c (chats (self w)) \/ c = chat_id) /\
  (forall c, In c (chats (self wr)) <-> In c (chats (self w)) /\ c <> chat_id) /\
  count_occ Z.eq_dec (chats (self wr)) chat_id = 0%nat /\
  (~ In chat_id (chats (self w)) ->
   chats (self wr) = chats (self w) /\
   trace wr = (trace w ++
               [Log INFO ("removing the chat " ++ PyStr.str_of_int chat_id);
                WriteChats (Json.dump (chats (self w)))])%list).
Proof.
  intros wa wr. subst wa wr. rewrite add_chat_eq, remove_chat_eq.
  split; [| split; [| split]].
  - intros c. destruct (chat_in chat_id (chats (self w))) eqn:E; simpl.
    + apply chat_in_In in E. split; [auto | intros [H | ->]; auto].
    + rewrite in_app_iff. simpl. split; [intros [H | [<- | []]]; auto |].
      intros [H | ->]; auto.
  - intros c. simpl. rewrite filter_In, negb_true_iff, Z.eqb_neq. tauto.
  - simpl. apply count_occ_not_In. intros H. apply filter_In in H.
    destruct H as [_ H]. now rewrite Z.eqb_refl in H.
  - intros H. simpl. rewrite (filter_not_in _ _ H).
    split; [reflexivity |]. now rewrite <- app_assoc.
Qed.

(** ** Looking up the cache, and a slot listed more than once *)

(** X16. Caching an identifier makes exactly that identifier known: after
    [__add_msg_to_cache] it is found by [__msg_in_cache], with the time of
    the clock as its timestamp, and every other identifier is found or
    not as before; a clear pass never makes an unknown identifier known. *)
Theorem cache_lookup_after_add (env : Env) (w : World) (msg : string) :
  let wa := snd (add_msg_to_cache env msg w) in
  let wc := snd (clear_cache env w) in
  msg_in_cache msg (self wa) = true /\
  In (Msg msg (clock env (step w))) (cache (self wa)) /\
  (forall other, other <> msg ->
                 msg_in_cache other (self wa) = msg_in_cache other (self w)) /\
  (forall other, msg_in_cache other (self wc) = true ->
                 msg_in_cache other (self w) = true).
Proof.
  intros wa wc. subst wa wc. rewrite add_msg_to_cache_eq, clear_cache_eq.
  simpl. split; [| split; [| split]].
  - apply msg_in_cache_In. eexists. simpl. apply in_or_app. right. now left.
  - apply in_or_app. right. now left.
  - intros other Ho. unfold msg_in_cache. simpl.
    rewrite existsb_app. simpl.
    apply String.eqb_neq in Ho. rewrite String.eqb_sym in Ho.
    rewrite Ho. now rewrite !orb_false_r.
  - intros other H. apply msg_in_cache_In in H. destruct H as (t & H).
    simpl in H. apply filter_In in H.
    apply msg_in_cache_In. exists t. tauto.
Qed.

Lemma cached_slots_are_silent env msg k :
  forall w,
  msg_in_cache msg (self w) = true ->
  sent (trace (snd (for_each (repeat (Td (Some (Some msg))) k)
                             (notify_slot env) w))) = sent (trace w).
Proof.
  induction k as [| k IH]; intros w Hc; simpl; [reflexivity |].
  destruct (notify_slot_cached env msg w Hc) as (w1 & E & Hs & _ & Ht).
  rewrite (bind_ok _ _ _ _ _ E). rewrite IH by now rewrite Hs.
  exact Ht.
Qed.

(** X17. A slot that the page lists several times is announced once: in
    one pass over the slots an identifier that was not cached, whose date
    can be derived, and that appears [k + 1] times, is delivered once to
    each subscriber, however long the deliveries take. *)
Theorem slot_listed_again_is_announced_once
    (env : Env) (w : World) (msg date : string) (k : nat) :
  msg_in_cache msg (self w) = false ->
  date_from_msg env msg = inr date ->
  sent (trace (snd (for_each (repeat (Td (Some (Some msg))) (S k))
                             (notify_slot env) w))) =
  (sent (trace w) ++ map (fun c => (c, md_msg date)) (chats (self w)))%list.
Proof.
  intros Hc Hd. simpl.
  destruct (notify_slot_fresh env msg date w Hc Hd) as (w1 & E & Hca & Ht).
  rewrite (bind_ok _ _ _ _ _ E).
  rewrite cached_slots_are_silent; [exact Ht |].
  apply msg_in_cache_In. exists (clock env (step w)). rewrite Hca.
  apply in_or_app. right. now left.
Qed.

(** ** Starting the bot *)


(** ** More of the sample run *)

(** X1 on the sample run: a newcomer, an iteration and a goodbye; the file
    then gives the three subscribers that are left. *)
Lemma subscribers_survive_restart_sample :
  let file := Some "[5, 7, 8]" in
  let l := [Start 9; Loop Iteration; Stop 5] in
  let w := serve env_utc l (snd (init (new_world file))) in
  fst (init (new_world file)) = inr tt /\
  chats (self w) = [7; 8; 9] /\
  chats (self (snd (get_chats (new_world (chats_json w))))) = [7; 8; 9].
Proof.
  intros file l w.
  assert (Hinit : fst (init (new_world file)) = inr tt) by reflexivity.
  destruct (subscribers_survive_restart env_utc file l
              (self (new_world None)) O [] Hinit) as [_ H].
  assert (Hw : chats (self w) = [7; 8; 9]) by (vm_compute; reflexivity).
  split; [exact Hinit |]. split; [exact Hw |].
  rewrite <- Hw. exact H.
Defined.

(** X2 on the sample run. *)
Lemma subscribers_stay_distinct_sample :
  let w := sample_world 2 [] in
  NoDup (chats (self w)) /\
  NoDup (chats (self (serve env_utc [Start 7; Loop Iteration; Start 9] w))).
Proof.
  intros w. split; [exact sample_chats_distinct |].
  exact (subscribers_stay_distinct env_utc _ w sample_chats_distinct).
Defined.

(** X3 on the sample run. *)
Lemma cache_stays_unique_sample :
  let w := sample_world 2 [] in
  cache_unique w /\
  cache_unique (serve env_utc [Loop Iteration; Loop Iteration; Stop 5] w).
Proof.
  intros w. split; [exact (NoDup_nil _) |].
  exact (cache_stays_unique env_utc _ w (NoDup_nil _)).
Defined.


(** X8 on the sample run: a page with a slot and a cell without a link. *)
Lemma normal_iteration_sample :
  let w := sample_world 2 [] in
  let page := Response 200 "<td class=buchbar>" in
  requests_get env_utc (step w) (proxy_on (self w)) = inr page /\
  status_code page <> 429 /\
  find_buchbar env_utc (content page)
    = inr [Td (Some (Some sample_slot)); Td None] /\
  fst (parse_iteration env_utc w) = inr tt /\
  proxy_on (self (snd (parse_iteration env_utc w))) = false.
Proof.
  intros w page.
  assert (Hs : status_code page <> 429) by discriminate.
  destruct (normal_iteration_keeps_proxy env_utc w page _ eq_refl Hs eq_refl)
    as (w' & E & Hp & _).
  split; [reflexivity |]. split; [exact Hs |]. split; [reflexivity |].
  rewrite E. split; [reflexivity | exact Hp].
Defined.

(** X9 on the sample run: with one entry 90 seconds old in the cache. *)
Lemma iteration_without_slots_sample :
  let w := sample_world 2 [Msg sample_slot 1700000000] in
  let page := Response 200 "<html></html>" in
  requests_get env_quiet (step w) (proxy_on (self w)) = inr page /\
  status_code page <> 429 /\
  find_buchbar env_quiet (content page) = inr [] /\
  trace (snd (parse_iteration env_quiet w)) =
    [HttpGet false; Soup "<html></html>"; Log INFO "no luck yet";
     Log INFO "clearing some messages from cache"; Sleep 45] /\
  cache (self (snd (parse_iteration env_quiet w)))
    = [Msg sample_slot 1700000000].
Proof.
  intros w page.
  assert (Hs : status_code page <> 429) by discriminate.
  pose proof (iteration_without_slots env_quiet w page eq_refl Hs eq_refl) as E.
  split; [reflexivity |]. split; [exact Hs |]. split; [reflexivity |].
  rewrite E. split; vm_compute; reflexivity.
Defined.

Lemma no_slash_in_sample_segment :
  ~ In "/"%char (list_ascii_of_string "1700002800").
Proof. vm_compute. intuition discriminate. Defined.

Lemma no_slash_in_empty : ~ In "/"%char (list_ascii_of_string "").
Proof. intros []. Defined.

(** X10 on the sample run: the midnight of the 15th of November in
    Berlin. *)
Lemma date_reads_segment_sample :
  ~ In "/"%char (list_ascii_of_string "1700002800") /\
  ~ In "/"%char (list_ascii_of_string "") /\
  date_from_msg env_utc "/terminvereinbarung/termin/time/1700002800/" =
    date_from_msg env_utc "1700002800".
Proof.
  split; [exact no_slash_in_sample_segment |].
  split; [exact no_slash_in_empty |].
  exact (proj1 (date_reads_segment_before_last
                  env_utc "/terminvereinbarung/termin/time" "1700002800" ""
                  no_slash_in_sample_segment no_slash_in_empty)).
Defined.

(** X11 on the sample run: the same midnight, 23:00 UTC on the 14th, is
    announced as the 15th. *)
Lemma date_is_the_day_after_shift_sample :
  let msg := "/terminvereinbarung/termin/time/1700002800/" in
  (forall t, utcoffset env_utc t = 0) /\
  PyStr.index (PyStr.split "/" msg)
              (Z.of_nat (List.length (PyStr.split "/" msg)) - 2)
    = Some "1700002800" /\
  (String.length "1700002800" <= 4300)%nat /\
  PyStr.int_of_str "1700002800" = Some 1700002800 /\
  86400 * 19676 - 7200 <= 1700002800 < 86400 * (19676 + 1) - 7200 /\
  1 <= Calendar.year (Calendar.of_epoch (86400 * (19676 - 1))) <= 9999 /\
  1 <= Calendar.year (Calendar.of_epoch (86400 * 19676)) <= 9999 /\
  date_from_msg env_utc msg = inr "15 November".
Proof.
  intros msg.
  assert (H1 : forall t, utcoffset env_utc t = 0) by (intros; reflexivity).
  assert (H2 : PyStr.index (PyStr.split "/" msg)
                 (Z.of_nat (List.length (PyStr.split "/" msg)) - 2)
               = Some "1700002800") by (vm_compute; reflexivity).
  assert (H0 : (String.length "1700002800" <= 4300)%nat)
    by (apply Nat.leb_le; vm_compute; reflexivity).
  assert (H3 : PyStr.int_of_str "1700002800" = Some 1700002800)
    by (vm_compute; reflexivity).
  assert (H4 : 86400 * 19676 - 7200 <= 1700002800 < 86400 * (19676 + 1) - 7200)
    by lia.
  assert (H5 : 1 <= Calendar.year (Calendar.of_epoch (86400 * (19676 - 1))) <= 9999)
    by (vm_compute; split; discriminate).
  assert (H6 : 1 <= Calendar.year (Calendar.of_epoch (86400 * 19676)) <= 9999)
    by (vm_compute; split; discriminate).
  destruct (date_is_the_day_after_shift env_utc msg "1700002800"
              1700002800 19676 H1 H2 H0 H3 H4 H5 H6) as [_ E].
  repeat (split; [assumption |]).
  rewrite E. vm_compute. reflexivity.
Defined.

(** X14 on the sample run. *)
Lemma start_then_stop_sample :
  let w := sample_world 2 [] in
  ~ In 9 (chats (self w)) /\
  chats (self (snd (stop env_utc 9 (snd (start env_utc 9 w))))) = [5; 7; 8].
Proof.
  intros w.
  assert (H : ~ In 9 (chats (self w))) by (simpl; intuition discriminate).
  split; [exact H |].
  exact (proj1 (start_then_stop_restores_subscribers env_utc w 9 H)).
Defined.

(** X17 on the sample run: the slot listed three times. *)
Lemma slot_listed_again_sample :
  let w := sample_world 2 [] in
  msg_in_cache sample_slot (self w) = false /\
  date_from_msg env_utc sample_slot = inr "15 November" /\
  map fst (sent (trace (snd (for_each
                               (repeat (Td (Some (Some sample_slot))) 3)
                               (notify_slot env_utc) w)))) = [5; 7; 8].
Proof.
  intros w.
  assert (Hd : date_from_msg env_utc sample_slot = inr "15 November")
    by (vm_compute; reflexivity).
  pose proof (slot_listed_again_is_announced_once
                env_utc w sample_slot "15 November" 2 eq_refl Hd) as E.
  split; [reflexivity |]. split; [exact Hd |].
  rewrite E. vm_compute. reflexivity.
Defined.
